(** * A shallow embedding of node-proper-lockfile (src/index.js)

    The module keeps a process-wide registry [locks] from canonical file
    names to lock objects, creates a lock as the directory [file.lock]
    holding a [.uid] file, refreshes the directory's mtime from a timer,
    and releases by unlinking the uid file and removing the directory.

    Modelling choices:
    - the filesystem [options.fs] is a finite map from path strings to
      entries with POSIX-like results (ENOENT, EEXIST, ENOTEMPTY, ...);
      every primitive call is appended to a log and may fail with an I/O
      fault chosen by an oracle of the environment, indexed by the number
      of primitive calls made so far; a fault leaves the disk unchanged;
    - callbacks run to completion in the order the code issues them: every
      primitive completes before the next statement. The only suspension
      points kept apart are a pending [setTimeout] (a timer) and a renewal
      tick whose two filesystem operations have been issued but whose
      [async.parallel] callback has not run yet (an in-flight tick);
    - JavaScript objects are kept in a heap [st_objs] addressed by ids, so
      that the registry, the timer closures and the release function share
      one lock object, as they do in the source; an assignment
      [lock.f = v] updates that object in place;
    - [Date.now()] reads the clock [st_now] (milliseconds); [uuid.v4()]
      draws from a generator of the environment;
    - the compromise callback is recorded as a notification (lock id,
      error) appended to [st_notes]. *)

From stdpp Require Import base gmap strings list fin_maps.
From Stdlib Require Import ZArith String Ascii Lia.

Local Open Scope Z_scope.

(* ------------------------------------------------------------------ *)
(** ** Errors *)

(** I/O failures a primitive may report besides its POSIX results. *)
Inductive Fault := EIO | EACCES | EBUSY | ENOSPC.

Inductive ErrCode :=
| ENOENT | EEXIST | ENOTEMPTY | EISDIR | ENOTDIR
| EFault (f : Fault)
| ELOCKED | EUPDATE | EMISMATCH | ERELEASED | ENOTACQUIRED.

#[global] Instance Fault_eq_dec : EqDecision Fault.
Proof. solve_decision. Defined.
#[global] Instance ErrCode_eq_dec : EqDecision ErrCode.
Proof. solve_decision. Defined.

(* ------------------------------------------------------------------ *)
(** ** The filesystem *)

Inductive Entry :=
| Dir (mtime : Z)
| File (mtime : Z) (content : string).

Inductive FsOp :=
| OpRealpath (p : string)
| OpMkdir (p : string)
| OpWriteFile (p : string) (c : string)
| OpStat (p : string)
| OpUnlink (p : string)
| OpRmdir (p : string)
| OpReadFile (p : string)
| OpUtimes (p : string) (m : Z).

(** [p] has an entry strictly below it. *)
Definition has_child (d : gmap string Entry) (p : string) : bool :=
  existsb (fun kv => String.prefix (p +:+ "/") kv.1) (map_to_list d).

Definition mkdir_prim (p : string) (now : Z) (d : gmap string Entry)
  : (ErrCode + unit) * gmap string Entry :=
  match d !! p with
  | Some _ => (inl EEXIST, d)
  | None => (inr tt, <[p := Dir now]> d)
  end.

Definition writeFile_prim (p c : string) (now : Z) (d : gmap string Entry)
  : (ErrCode + unit) * gmap string Entry :=
  match d !! p with
  | Some (Dir _) => (inl EISDIR, d)
  | _ => (inr tt, <[p := File now c]> d)
  end.

Definition stat_prim (p : string) (now : Z) (d : gmap string Entry)
  : (ErrCode + Z) * gmap string Entry :=
  match d !! p with
  | None => (inl ENOENT, d)
  | Some (Dir m) | Some (File m _) => (inr m, d)
  end.

Definition unlink_prim (p : string) (now : Z) (d : gmap string Entry)
  : (ErrCode + unit) * gmap string Entry :=
  match d !! p with
  | None => (inl ENOENT, d)
  | Some (Dir _) => (inl EISDIR, d)
  | Some (File _ _) => (inr tt, delete p d)
  end.

Definition rmdir_prim (p : string) (now : Z) (d : gmap string Entry)
  : (ErrCode + unit) * gmap string Entry :=
  match d !! p with
  | None => (inl ENOENT, d)
  | Some (File _ _) => (inl ENOTDIR, d)
  | Some (Dir _) =>
      if has_child d p then (inl ENOTEMPTY, d) else (inr tt, delete p d)
  end.

Definition readFile_prim (p : string) (now : Z) (d : gmap string Entry)
  : (ErrCode + string) * gmap string Entry :=
  match d !! p with
  | None => (inl ENOENT, d)
  | Some (Dir _) => (inl EISDIR, d)
  | Some (File _ c) => (inr c, d)
  end.

Definition utimes_prim (p : string) (m : Z) (now : Z) (d : gmap string Entry)
  : (ErrCode + unit) * gmap string Entry :=
  match d !! p with
  | None => (inl ENOENT, d)
  | Some (Dir _) => (inr tt, <[p := Dir m]> d)
  | Some (File _ c) => (inr tt, <[p := File m c]> d)
  end.

(* ------------------------------------------------------------------ *)
(** ** Options, lock objects, timers and the process state *)

(** The options after [lock] has normalised them ([options.fs] is the
    filesystem of the state). *)
Record Opts := mkOpts {
  o_stale : Z;
  o_update : Z;
  o_resolve : bool;
  o_retries : nat
}.

Definition with_stale (o : Opts) (v : Z) : Opts :=
  mkOpts v (o_update o) (o_resolve o) (o_retries o).
Definition with_resolve (o : Opts) (b : bool) : Opts :=
  mkOpts (o_stale o) (o_update o) b (o_retries o).

(** The object stored in [locks[file]] (lines 211-216) and the fields the
    renewal code adds to it; [null] is [None]. *)
Record LockObj := mkLock {
  lk_uid : string;
  lk_lastUpdate : Z;
  lk_released : bool;
  lk_updateError : option ErrCode;
  lk_updateDelay : option Z;
  lk_updateTimeout : option nat
}.

(** A pending [setTimeout] of [updateLock]: the closure captures the lock
    object, [file] and [options]. *)
Record Timer := mkTimer {
  tm_lock : nat;
  tm_file : string;
  tm_opts : Opts;
  tm_delay : Z
}.

(** A renewal tick whose [readFile] and [utimes] have been issued and whose
    [async.parallel] callback is pending: [tk_err] is the callback's [err],
    [tk_read] the content read. *)
Record Tick := mkTick {
  tk_lock : nat;
  tk_file : string;
  tk_opts : Opts;
  tk_err : option ErrCode;
  tk_read : string
}.

Record St := mkSt {
  st_disk : gmap string Entry;
  st_locks : gmap string nat;
  st_objs : gmap nat LockObj;
  st_timers : gmap nat Timer;
  st_ticks : gmap nat Tick;
  st_now : Z;
  st_seed : nat;
  st_log : list FsOp;
  st_notes : list (nat * ErrCode)
}.

Record Env := mkEnv {
  env_fault : nat -> FsOp -> option Fault;
  env_uuid : nat -> string;
  env_realpath : string -> option string;
  env_normalize : string -> string
}.

Definition set_disk (d : gmap string Entry) (s : St) : St :=
  mkSt d (st_locks s) (st_objs s) (st_timers s) (st_ticks s) (st_now s)
       (st_seed s) (st_log s) (st_notes s).
Definition set_locks (l : gmap string nat) (s : St) : St :=
  mkSt (st_disk s) l (st_objs s) (st_timers s) (st_ticks s) (st_now s)
       (st_seed s) (st_log s) (st_notes s).
Definition set_objs (o : gmap nat LockObj) (s : St) : St :=
  mkSt (st_disk s) (st_locks s) o (st_timers s) (st_ticks s) (st_now s)
       (st_seed s) (st_log s) (st_notes s).
Definition set_timers (t : gmap nat Timer) (s : St) : St :=
  mkSt (st_disk s) (st_locks s) (st_objs s) t (st_ticks s) (st_now s)
       (st_seed s) (st_log s) (st_notes s).
Definition set_ticks (t : gmap nat Tick) (s : St) : St :=
  mkSt (st_disk s) (st_locks s) (st_objs s) (st_timers s) t (st_now s)
       (st_seed s) (st_log s) (st_notes s).
Definition set_now (n : Z) (s : St) : St :=
  mkSt (st_disk s) (st_locks s) (st_objs s) (st_timers s) (st_ticks s) n
       (st_seed s) (st_log s) (st_notes s).
Definition set_seed (n : nat) (s : St) : St :=
  mkSt (st_disk s) (st_locks s) (st_objs s) (st_timers s) (st_ticks s)
       (st_now s) n (st_log s) (st_notes s).
Definition set_log (l : list FsOp) (s : St) : St :=
  mkSt (st_disk s) (st_locks s) (st_objs s) (st_timers s) (st_ticks s)
       (st_now s) (st_seed s) l (st_notes s).
Definition set_notes (n : list (nat * ErrCode)) (s : St) : St :=
  mkSt (st_disk s) (st_locks s) (st_objs s) (st_timers s) (st_ticks s)
       (st_now s) (st_seed s) (st_log s) n.

(* ------------------------------------------------------------------ *)
(** ** A state monad for the callback chains *)

Definition M (A : Type) : Type := St -> A * St.

#[global] Instance M_ret : MRet M := fun A x s => (x, s).
#[global] Instance M_bind : MBind M :=
  fun A B k m s => let (x, s') := m s in k x s'.

Definition gets {A} (f : St -> A) : M A := fun s => (f s, s).
Definition modify (f : St -> St) : M unit := fun s => (tt, f s).

(** One call of a primitive of [options.fs]. *)
Definition fs_call {A} (E : Env) (op : FsOp)
    (run : Z -> gmap string Entry -> (ErrCode + A) * gmap string Entry)
    : M (ErrCode + A) :=
  fun s =>
    let s1 := set_log (st_log s ++ [op]) s in
    match env_fault E (List.length (st_log s)) op with
    | Some f => (inl (EFault f), s1)
    | None => let (r, d') := run (st_now s) (st_disk s) in (r, set_disk d' s1)
    end.

Definition fs_mkdir E p := fs_call E (OpMkdir p) (mkdir_prim p).
Definition fs_writeFile E p c := fs_call E (OpWriteFile p c) (writeFile_prim p c).
Definition fs_stat E p := fs_call E (OpStat p) (stat_prim p).
Definition fs_unlink E p := fs_call E (OpUnlink p) (unlink_prim p).
Definition fs_rmdir E p := fs_call E (OpRmdir p) (rmdir_prim p).
Definition fs_readFile E p := fs_call E (OpReadFile p) (readFile_prim p).
Definition fs_utimes E p m := fs_call E (OpUtimes p m) (utimes_prim p m).

Definition fs_realpath (E : Env) (p : string) : M (ErrCode + string) :=
  fs_call E (OpRealpath p) (fun _ d =>
    match env_realpath E p with
    | Some q => (inr q, d)
    | None => (inl ENOENT, d)
    end).

Definition date_now : M Z := gets st_now.

Definition uuid_v4 (E : Env) : M string :=
  fun s => (env_uuid E (st_seed s), set_seed (S (st_seed s)) s).

Definition skip : M unit := mret tt.

(* ------------------------------------------------------------------ *)
(** ** Heap of lock objects, registry and notifications *)

Definition get_obj (h : nat) : M (option LockObj) := gets (fun s => st_objs s !! h).

(** An assignment [lock.f = v] updates the object in the heap in place. *)
Definition update_obj (h : nat) (f : LockObj -> LockObj) : M unit :=
  modify (fun s => set_objs (alter f h (st_objs s)) s).

(** A fresh object literal. *)
Definition alloc_obj (l : LockObj) : M nat :=
  fun s => let h := fresh (dom (st_objs s)) in (h, set_objs (<[h := l]> (st_objs s)) s).

Definition set_released (b : bool) (l : LockObj) : LockObj :=
  mkLock (lk_uid l) (lk_lastUpdate l) b (lk_updateError l)
         (lk_updateDelay l) (lk_updateTimeout l).
Definition set_lastUpdate (n : Z) (l : LockObj) : LockObj :=
  mkLock (lk_uid l) n (lk_released l) (lk_updateError l)
         (lk_updateDelay l) (lk_updateTimeout l).
Definition set_updateError (e : option ErrCode) (l : LockObj) : LockObj :=
  mkLock (lk_uid l) (lk_lastUpdate l) (lk_released l) e
         (lk_updateDelay l) (lk_updateTimeout l).
Definition set_updateDelay (d : option Z) (l : LockObj) : LockObj :=
  mkLock (lk_uid l) (lk_lastUpdate l) (lk_released l) (lk_updateError l)
         d (lk_updateTimeout l).
Definition set_updateTimeout (t : option nat) (l : LockObj) : LockObj :=
  mkLock (lk_uid l) (lk_lastUpdate l) (lk_released l) (lk_updateError l)
         (lk_updateDelay l) t.

(** [setTimeout]: a new timer id, distinct from the pending timers and from
    the ticks in flight. *)
Definition set_timeout (tm : Timer) : M nat :=
  fun s => let t := fresh (dom (st_timers s) ∪ dom (st_ticks s)) in
           (t, set_timers (<[t := tm]> (st_timers s)) s).

Definition registry_delete (file : string) : M unit :=
  modify (fun s => set_locks (delete file (st_locks s)) s).
Definition clear_timeout (t : nat) : M unit :=
  modify (fun s => set_timers (delete t (st_timers s)) s).

(** [lock.compromised(err)] *)
Definition compromised (h : nat) (e : ErrCode) : M unit :=
  modify (fun s => set_notes (st_notes s ++ [(h, e)]) s).

(* ------------------------------------------------------------------ *)
(** ** Paths (lines 13-27) *)

Definition getLockFile (file : string) : string := file +:+ ".lock".

(** [path.join(getLockFile(file), '.uid')]: [file] is already canonical. *)
Definition getUidFile (file : string) : string := getLockFile file +:+ "/.uid".

Definition canonicalPath (E : Env) (file : string) (o : Opts) : M (ErrCode + string) :=
  if negb (o_resolve o) then mret (inr (env_normalize E file))
  else fs_realpath E file.

(* ------------------------------------------------------------------ *)
(** ** removeLock (lines 87-103) *)

(** [err.code === 'ENOENT'] *)
Definition is_enoent (e : ErrCode) : bool :=
  match e with ENOENT => true | _ => false end.

(** [err && err.code !== 'ENOENT'] *)
Definition ignore_enoent {A} (r : ErrCode + A) : option ErrCode :=
  match r with
  | inl e => if is_enoent e then None else Some e
  | inr _ => None
  end.

Definition removeLock (E : Env) (file : string) : M (option ErrCode) :=
  r1 ← fs_unlink E (getUidFile file);
  match ignore_enoent r1 with
  | Some e => mret (Some e)
  | None =>
      r2 ← fs_rmdir E (getLockFile file);
      mret (ignore_enoent r2)
  end.

(* ------------------------------------------------------------------ *)
(** ** acquireLock (lines 29-85)

    The body takes the recursive call as a parameter [rec]; both recursive
    calls pass [stale: 0], and with [stale <= 0] the body never reaches
    [rec] (lemma [acquireLock_unfold] below), so two unfoldings are the
    whole recursion. *)

Definition acquireLock_body (E : Env) (rec : string -> Opts -> M (ErrCode + string))
    (file : string) (o : Opts) : M (ErrCode + string) :=
  locks ← gets st_locks;
  match locks !! file with
  | Some _ => mret (inl ELOCKED)
  | None =>
      r ← fs_mkdir E (getLockFile file);
      match r with
      | inr _ =>
          uid ← uuid_v4 E;
          w ← fs_writeFile E (getUidFile file) uid;
          match w with
          | inl e => _ ← removeLock E file; mret (inl e)
          | inr _ => mret (inr uid)
          end
      | inl _ =>
          if o_stale o <=? 0 then mret (inl ELOCKED) else
          st ← fs_stat E (getLockFile file);
          match st with
          | inl e =>
              if is_enoent e then rec file (with_stale o 0)
              else mret (inl e)
          | inr mtime =>
              now ← date_now;
              if now - o_stale o <=? mtime then mret (inl ELOCKED) else
              rm ← removeLock E file;
              match rm with
              | Some e => mret (inl e)
              | None => rec file (with_stale o 0)
              end
          end
      end
  end.

Definition acquireLock (E : Env) : string -> Opts -> M (ErrCode + string) :=
  acquireLock_body E (acquireLock_body E (fun _ _ => mret (inl ELOCKED))).

(* ------------------------------------------------------------------ *)
(** ** updateLock (lines 105-158) and unlock (lines 236-269) *)

(** [lock.updateDelay || options.update] *)
Definition delay_of (l : LockObj) (o : Opts) : Z :=
  match lk_updateDelay l with
  | Some d => if d =? 0 then o_update o else d
  | None => o_update o
  end.

(** Schedules the next renewal of [locks[file]]. When the registry has no
    entry the source throws a TypeError; the model then does nothing. *)
Definition updateLock (E : Env) (file : string) (o : Opts) : M unit :=
  locks ← gets st_locks;
  match locks !! file with
  | None => skip
  | Some h =>
      ol ← get_obj h;
      match ol with
      | None => skip
      | Some l =>
          let d := delay_of l o in
          _ ← update_obj h (set_updateDelay (Some d));
          t ← set_timeout (mkTimer h file o d);
          update_obj h (set_updateTimeout (Some t))
      end
  end.

Definition unlock (E : Env) (file0 : string) (o : Opts) : M (option ErrCode) :=
  c ← canonicalPath E file0 o;
  match c with
  | inl e => mret (Some e)
  | inr file =>
      locks ← gets st_locks;
      match locks !! file with
      | None => mret (Some ENOTACQUIRED)
      | Some h =>
          ol ← get_obj h;
          _ ← match ol ≫= lk_updateTimeout with
              | Some t => clear_timeout t
              | None => skip
              end;
          _ ← update_obj h (set_released true);
          _ ← registry_delete file;
          removeLock E file
      end
  end.

(* ------------------------------------------------------------------ *)
(** ** The renewal timer (lines 109-157) *)

(** [String.prototype.trim] on ASCII text: strips spaces, tabs and the
    line terminators \n \v \f \r at both ends. *)
Definition is_ws (c : ascii) : bool :=
  let n := nat_of_ascii c in ((n =? 32) || ((9 <=? n) && (n <=? 13)))%nat.

Fixpoint trim_left (s : string) : string :=
  match s with
  | EmptyString => EmptyString
  | String c r => if is_ws c then trim_left r else s
  end.

Definition string_rev (s : string) : string :=
  string_of_list_ascii (List.rev (list_ascii_of_string s)).

Definition trim (s : string) : string := string_rev (trim_left (string_rev (trim_left s))).

(** The [setTimeout] callback: it clears [lock.updateTimeout] and issues
    [readFile] of the uid file and [utimes] of the lock directory through
    [async.parallel]; the tick is then in flight. The callback's [err] is
    the first error, the read's before the utimes' one. *)
Definition fire (E : Env) (t : nat) : M unit :=
  timers ← gets st_timers;
  match timers !! t with
  | None => skip
  | Some tm =>
      _ ← modify (set_timers (delete t timers));
      mtime ← date_now;
      _ ← update_obj (tm_lock tm) (set_updateTimeout None);
      r ← fs_readFile E (getUidFile (tm_file tm));
      u ← fs_utimes E (getLockFile (tm_file tm)) mtime;
      let err := match r with
                 | inl e => Some e
                 | inr _ => match u with inl e => Some e | inr _ => None end
                 end in
      let data := match r with inr c => c | inl _ => EmptyString end in
      modify (fun s => set_ticks
        (<[t := mkTick (tm_lock tm) (tm_file tm) (tm_opts tm) err data]> (st_ticks s)) s)
  end.

(** The [async.parallel] callback of a renewal tick (lines 117-156). *)
Definition tick_complete (E : Env) (k : nat) : M unit :=
  ticks ← gets st_ticks;
  match ticks !! k with
  | None => skip
  | Some tk =>
      _ ← modify (set_ticks (delete k ticks));
      let h := tk_lock tk in
      let file := tk_file tk in
      let o := tk_opts tk in
      ol ← get_obj h;
      match ol with
      | None => skip
      | Some l =>
          if lk_released l then skip else
          now ← date_now;
          if lk_lastUpdate l <=? now - o_stale o then
            _ ← unlock E file (with_resolve o false);
            ol' ← get_obj h;
            compromised h (match ol' ≫= lk_updateError with
                           | Some e => e
                           | None => EUPDATE
                           end)
          else
            match tk_err tk with
            | Some e =>
                if is_enoent e then
                  _ ← unlock E file (with_resolve o false);
                  compromised h e
                else
                  _ ← update_obj h (set_updateError (Some e));
                  _ ← update_obj h (set_updateDelay (Some 1000));
                  updateLock E file o
            | None =>
                if String.eqb (trim (tk_read tk)) (lk_uid l) then
                  _ ← update_obj h (set_lastUpdate now);
                  _ ← update_obj h (set_updateError None);
                  _ ← update_obj h (set_updateDelay None);
                  updateLock E file o
                else
                  _ ← update_obj h (set_released true);
                  _ ← registry_delete file;
                  compromised h EMISMATCH
            end
      end
  end.

(* ------------------------------------------------------------------ *)
(** ** lock (lines 162-234) *)

(** The caller's options; [None] is an absent property. *)
Record UserOpts := mkUserOpts {
  u_stale : option Z;
  u_update : option Z;
  u_resolve : option bool;
  u_retries : option nat
}.

(** [v || 0] on a number. *)
Definition js_or0 (v : Z) : Z := if v =? 0 then 0 else v.

(** [Math.round(x / 2)] for an integer [x]: [floor(x / 2 + 1 / 2)]. *)
Definition round_half (x : Z) : Z := (x + 1) `div` 2.

(** Lines 174-185: defaults by [extend], then the clamps. *)
Definition lock_options (u : UserOpts) : Opts :=
  let stale := Z.max (js_or0 (default 10000 (u_stale u))) 2000 in
  let update := Z.max (Z.min (js_or0 (default 5000 (u_update u))) (round_half stale)) 1000 in
  mkOpts stale update (default true (u_resolve u)) (default 0%nat (u_retries u)).

(** What the release function returned by [lock] closes over. *)
Record Handle := mkHandle {
  hd_file : string;
  hd_lock : nat;
  hd_opts : Opts
}.

(** One attempt of [operation.attempt] (lines 198-231). With the default
    [retries: 0], [operation.retry(err)] is false and [mainError()] is
    [err]; the back-off of further attempts is not modelled. *)
Definition lock (E : Env) (file0 : string) (u : UserOpts) : M (ErrCode + Handle) :=
  let o := lock_options u in
  c ← canonicalPath E file0 o;
  match c with
  | inl e => mret (inl e)
  | inr file =>
      r ← acquireLock E file o;
      match r with
      | inl e => mret (inl e)
      | inr uid =>
          now ← date_now;
          h ← alloc_obj (mkLock uid now false None None None);
          _ ← modify (fun s => set_locks (<[file := h]> (st_locks s)) s);
          _ ← updateLock E file o;
          mret (inr (mkHandle file h o))
      end
  end.

(** The release function returned by [lock] (lines 221-230). *)
Definition release (E : Env) (hd : Handle) : M (option ErrCode) :=
  ol ← get_obj (hd_lock hd);
  if match ol with Some l => lk_released l | None => false end
  then mret (Some ERELEASED)
  else unlock E (hd_file hd) (with_resolve (hd_opts hd) false).

(* ------------------------------------------------------------------ *)
(** ** The process as a sequence of events *)

Inductive Event :=
| EvLock (file : string) (u : UserOpts)
| EvRelease (hd : Handle)
| EvUnlock (file : string) (resolve : bool)
| EvFire (t : nat)
| EvComplete (k : nat)
| EvClock (dt : N)
| EvExternal (d : gmap string Entry).

(** [EvUnlock] is the public [unlock(file, {resolve})]; [EvExternal] is
    another process rewriting the shared directory tree. *)
Definition step (E : Env) (ev : Event) (s : St) : St :=
  match ev with
  | EvLock f u => snd (lock E f u s)
  | EvRelease hd => snd (release E hd s)
  | EvUnlock f b => snd (unlock E f (mkOpts 0 0 b 0) s)
  | EvFire t => snd (fire E t s)
  | EvComplete k => snd (tick_complete E k s)
  | EvClock dt => set_now (st_now s + Z.of_N dt) s
  | EvExternal d => set_disk d s
  end.

Fixpoint run (E : Env) (evs : list Event) (s : St) : St :=
  match evs with
  | [] => s
  | ev :: evs' => run E evs' (step E ev s)
  end.

(** Notifications delivered to the compromise callback of lock [h]. *)
Definition notes_of (h : nat) (s : St) : list ErrCode :=
  (filter (fun p => p.1 = h) (st_notes s)).*2.

(* ================================================================== *)
(** * Proofs *)

Ltac unfold_M :=
  unfold date_now, skip, get_obj, update_obj, alloc_obj, set_timeout, registry_delete, clear_timeout,
    compromised in *;
  unfold mbind, M_bind, mret, M_ret, gets, modify in *.

(** ** The recursion of acquireLock stops after one retry *)

Lemma acquireLock_body_no_rec E r1 r2 file o :
  o_stale o <= 0 -> acquireLock_body E r1 file o = acquireLock_body E r2 file o.
Proof.
  intros Hs. unfold acquireLock_body.
  assert (Hb : (o_stale o <=? 0) = true) by (apply Z.leb_le; lia).
  rewrite Hb. reflexivity.
Qed.

Lemma acquireLock_body_ext E r1 r2 file o :
  (forall s, r1 file (with_stale o 0) s = r2 file (with_stale o 0) s) ->
  forall s, acquireLock_body E r1 file o s = acquireLock_body E r2 file o s.
Proof.
  intros Hr s. unfold acquireLock_body. unfold_M.
  destruct (st_locks s !! file); [reflexivity|].
  destruct (fs_mkdir E (getLockFile file) s) as [[e|[]] s1]; [|reflexivity].
  destruct (o_stale o <=? 0); [reflexivity|].
  destruct (fs_stat E (getLockFile file) s1) as [[e'|m] s2].
  - destruct (is_enoent e'); [apply Hr|reflexivity].
  - destruct (st_now s2 - o_stale o <=? m); [reflexivity|].
    destruct (removeLock E file s2) as [[e''|] s3]; [reflexivity|apply Hr].
Qed.

(** The two-level definition satisfies the recursive equation of the
    source: the retry with [stale: 0] never recurses again. *)
Lemma acquireLock_unfold E file o s :
  acquireLock E file o s = acquireLock_body E (acquireLock E) file o s.
Proof.
  unfold acquireLock at 1. apply acquireLock_body_ext. intros s'.
  unfold acquireLock. apply (f_equal (fun f => f s')).
  apply acquireLock_body_no_rec. simpl. lia.
Qed.

(** ** Concrete inputs *)

(** A filesystem that reports no I/O fault, a uuid generator, and an
    identity path resolution. *)
Definition env_plain : Env :=
  mkEnv (fun _ _ => None)
        (fun n => if decide (n = 0%nat) then "uidA" else "uidB")
        (fun p => Some p) (fun p => p).

Definition opts_default : Opts := lock_options (mkUserOpts None None None None).

Definition st_at (d : gmap string Entry) (now : Z) : St :=
  mkSt d ∅ ∅ ∅ ∅ now 0 [] [].

(** ** C4: the same-process fast fail *)

(** C4: acquiring (acquireLock, the acquisition engine on a canonical
    identity) an identity the registry already holds fails with ELOCKED and
    leaves the whole state unchanged, in particular the disk and the log of
    primitive filesystem calls. *)
Theorem acquireLock_registered_fast_fail E file o s h :
  st_locks s !! file = Some h -> acquireLock E file o s = (inl ELOCKED, s).
Proof.
  intros H. unfold acquireLock, acquireLock_body. unfold_M. rewrite H. reflexivity.
Qed.

Definition st_registered : St := set_locks {["/tmp/a" := 0%nat]} (st_at ∅ 100000).

Lemma acquireLock_registered_fast_fail_witness :
  acquireLock env_plain "/tmp/a" opts_default st_registered = (inl ELOCKED, st_registered).
Proof. apply (acquireLock_registered_fast_fail _ _ _ _ 0%nat). reflexivity. Defined.

(** ** C5: option normalisation *)

(** C5 (counterexample): with [stale: 2001] the renewal interval is
    [Math.round(2001 / 2) = 1001], above [staleThreshold / 2 = 1000.5]. *)
Lemma lock_options_update_above_half :
  let o := lock_options (mkUserOpts (Some 2001) None None None) in
  o_stale o = 2001 /\ o_update o = 1001 /\ o_stale o < 2 * o_update o.
Proof. vm_compute. repeat split; reflexivity. Qed.

(** C5 (amended): the threshold is [max(v || 0, 2000)] (default 10000),
    the interval [max(min(v || 0, round(stale / 2)), 1000)] (default 5000);
    hence [stale >= 2000] and [1000 <= update <= round(stale / 2)], that is
    [2 * update <= stale + 1]. *)
Theorem lock_options_bounds u :
  let o := lock_options u in
  o_stale o = Z.max (js_or0 (default 10000 (u_stale u))) 2000 /\
  o_update o = Z.max (Z.min (js_or0 (default 5000 (u_update u)))
                            (round_half (o_stale o))) 1000 /\
  2000 <= o_stale o /\ 1000 <= o_update o /\
  o_update o <= round_half (o_stale o) /\ 2 * o_update o <= o_stale o + 1.
Proof.
  cbn zeta. unfold lock_options; cbn [o_stale o_update].
  set (st := Z.max (js_or0 (default 10000 (u_stale u))) 2000).
  set (up := js_or0 (default 5000 (u_update u))).
  assert (Hs : 2000 <= st) by (unfold st; lia).
  unfold round_half.
  assert (Hq : 1000 <= (st + 1) / 2) by (apply Z.div_le_lower_bound; lia).
  pose proof (Z.mul_div_le (st + 1) 2 ltac:(lia)).
  repeat split; try reflexivity; lia.
Qed.

(** ** C1: contention and the staleness check *)

(** A lock directory whose mtime is exactly [staleThreshold] old. *)
Definition st_edge : St :=
  st_at (<["/tmp/a.lock" := Dir 90000]> {["/tmp/a.lock/.uid" := File 90000 "other"]})
        100000.

(** C1 (counterexample): [now - mtime = staleThreshold] is not below the
    threshold, yet the code still fails with ELOCKED and leaves the lock
    directory and its uid file in place (it keeps a lock fresh while
    [mtime >= now - stale]). *)
Lemma acquireLock_stale_boundary_held :
  st_now st_edge - 90000 = o_stale opts_default /\
  fst (acquireLock env_plain "/tmp/a" opts_default st_edge) = inl ELOCKED /\
  st_disk (snd (acquireLock env_plain "/tmp/a" opts_default st_edge)) = st_disk st_edge.
Proof. vm_compute. repeat split; reflexivity. Qed.

(** C1 (amended): on contention with a positive threshold and a
    successful stat of the lock directory, the call fails with ELOCKED when
    [now - mtime <= staleThreshold]; otherwise it runs [removeLock] (unlink
    of the uid file then rmdir, ignoring ENOENT); if that removal reports
    another error the call fails with it, and if not the call is exactly one
    more acquisition with [stale: 0], which itself never retries. *)
Theorem acquireLock_contended E file o s e0 s1 mtime s2 :
  st_locks s !! file = None ->
  0 < o_stale o ->
  fs_mkdir E (getLockFile file) s = (inl e0, s1) ->
  fs_stat E (getLockFile file) s1 = (inr mtime, s2) ->
  (st_now s2 - mtime <= o_stale o -> acquireLock E file o s = (inl ELOCKED, s2)) /\
  (o_stale o < st_now s2 - mtime ->
   forall rm s3, removeLock E file s2 = (rm, s3) ->
     (forall e, rm = Some e -> acquireLock E file o s = (inl e, s3)) /\
     (rm = None ->
      acquireLock E file o s = acquireLock E file (with_stale o 0) s3 /\
      forall rec s', acquireLock E file (with_stale o 0) s' =
                     acquireLock_body E rec file (with_stale o 0) s')).
Proof.
  intros Hl Hs Hm Hst.
  assert (Hb : (o_stale o <=? 0) = false) by (apply Z.leb_gt; lia).
  assert (Heq : acquireLock E file o s =
    if st_now s2 - o_stale o <=? mtime then (inl ELOCKED, s2) else
    let (rm, s3) := removeLock E file s2 in
    match rm with
    | Some e => (inl e, s3)
    | None => acquireLock E file (with_stale o 0) s3
    end).
  { rewrite acquireLock_unfold. unfold acquireLock_body. unfold_M.
    rewrite Hl, Hm, Hb, Hst. cbn beta iota.
    destruct (st_now s2 - o_stale o <=? mtime); [reflexivity|].
    destruct (removeLock E file s2) as [[e|] s3]; reflexivity. }
  rewrite Heq. split.
  - intros Hf. replace (st_now s2 - o_stale o <=? mtime) with true
      by (symmetry; apply Z.leb_le; lia). reflexivity.
  - intros Hf rm s3 Hrm.
    replace (st_now s2 - o_stale o <=? mtime) with false
      by (symmetry; apply Z.leb_gt; lia).
    rewrite Hrm. split.
    + intros e ->. reflexivity.
    + intros ->. split; [reflexivity|].
      intros rec s'. unfold acquireLock.
      apply (f_equal (fun f => f s')). apply acquireLock_body_no_rec. simpl. lia.
Qed.

(** A lock directory left 60 seconds ago. *)
Definition st_old : St :=
  st_at (<["/tmp/a.lock" := Dir 40000]> {["/tmp/a.lock/.uid" := File 40000 "other"]})
        100000.

Definition st_old1 : St := snd (fs_mkdir env_plain (getLockFile "/tmp/a") st_old).
Definition st_old2 : St := snd (fs_stat env_plain (getLockFile "/tmp/a") st_old1).

Lemma acquireLock_contended_witness :
  st_locks st_old !! "/tmp/a" = None /\ 0 < o_stale opts_default /\
  acquireLock env_plain "/tmp/a" opts_default st_old =
  acquireLock env_plain "/tmp/a" (with_stale opts_default 0)
              (snd (removeLock env_plain "/tmp/a" st_old2)).
Proof.
  assert (Hl : st_locks st_old !! "/tmp/a" = None) by reflexivity.
  assert (Hs : 0 < o_stale opts_default) by (vm_compute; reflexivity).
  assert (Hm : fs_mkdir env_plain (getLockFile "/tmp/a") st_old = (inl EEXIST, st_old1))
    by (vm_compute; reflexivity).
  assert (Hst : fs_stat env_plain (getLockFile "/tmp/a") st_old1 = (inr 40000, st_old2))
    by (vm_compute; reflexivity).
  assert (Hlt : o_stale opts_default < st_now st_old2 - 40000)
    by (vm_compute; reflexivity).
  assert (Hrm : removeLock env_plain "/tmp/a" st_old2 =
                (None, snd (removeLock env_plain "/tmp/a" st_old2)))
    by (vm_compute; reflexivity).
  split; [exact Hl|]. split; [exact Hs|].
  exact (proj1 (proj2 (proj2 (acquireLock_contended env_plain "/tmp/a" opts_default
    st_old EEXIST st_old1 40000 st_old2 Hl Hs Hm Hst) Hlt None _ Hrm) eq_refl)).
Defined.

(** ** Paths and [has_child] *)

Lemma string_app_nil (b : string) : EmptyString +:+ b = b.
Proof. reflexivity. Qed.

Lemma string_app_cons c (a b : string) : String c a +:+ b = String c (a +:+ b).
Proof. reflexivity. Qed.

Lemma string_app_length (a b : string) :
  String.length (a +:+ b) = (String.length a + String.length b)%nat.
Proof.
  induction a as [|c a IH]; [reflexivity|].
  rewrite string_app_cons. simpl. rewrite IH. reflexivity.
Qed.

Lemma string_prefix_length (a b : string) :
  String.prefix a b = true -> (String.length a <= String.length b)%nat.
Proof.
  revert b. induction a as [|c a IH]; intros b H; simpl; [lia|].
  destruct b as [|c' b]; simpl in H; [discriminate|].
  destruct (ascii_dec c c'); [|discriminate]. simpl. apply IH in H. lia.
Qed.

Lemma string_prefix_app (a b : string) : String.prefix a (a +:+ b) = true.
Proof.
  induction a as [|c a IH]; [destruct b; reflexivity|].
  rewrite string_app_cons. simpl.
  destruct (ascii_dec c c); [exact IH|congruence].
Qed.

Lemma string_app_assoc (a b c : string) : (a +:+ b) +:+ c = a +:+ (b +:+ c).
Proof.
  induction a as [|x a IH]; [reflexivity|].
  rewrite !string_app_cons. rewrite IH. reflexivity.
Qed.

Lemma uid_file_under_lock file :
  String.prefix (getLockFile file +:+ "/") (getUidFile file) = true.
Proof.
  unfold getUidFile.
  replace (getLockFile file +:+ "/.uid")
    with ((getLockFile file +:+ "/") +:+ ".uid")
    by (rewrite string_app_assoc; reflexivity).
  apply string_prefix_app.
Qed.

Lemma not_own_child p : String.prefix (p +:+ "/") p = false.
Proof.
  destruct (String.prefix (p +:+ "/") p) eqn:H; [|reflexivity].
  apply string_prefix_length in H. rewrite string_app_length in H. simpl in H. lia.
Qed.

Lemma uid_ne_lock file : getUidFile file <> getLockFile file.
Proof.
  intros H. apply (f_equal String.length) in H.
  unfold getUidFile in H. rewrite string_app_length in H. simpl in H. lia.
Qed.

Lemma has_child_spec (d : gmap string Entry) p :
  has_child d p = true <->
  exists k v, d !! k = Some v /\ String.prefix (p +:+ "/") k = true.
Proof.
  unfold has_child. rewrite existsb_exists. split.
  - intros [[k v] [Hin Hp]]. exists k, v. split; [|exact Hp].
    apply elem_of_map_to_list. apply list_elem_of_In. exact Hin.
  - intros (k & v & Hk & Hp). exists (k, v). split; [|exact Hp].
    apply list_elem_of_In. apply elem_of_map_to_list. exact Hk.
Qed.

Lemma has_child_false_lookup (d : gmap string Entry) p k :
  has_child d p = false -> String.prefix (p +:+ "/") k = true -> d !! k = None.
Proof.
  intros H Hp. destruct (d !! k) as [v|] eqn:Hk; [|reflexivity].
  assert (has_child d p = true) by (apply has_child_spec; eauto). congruence.
Qed.

Lemma has_child_insert_self (d : gmap string Entry) p x :
  has_child (<[p := x]> d) p = has_child d p.
Proof.
  apply Bool.eq_iff_eq_true. rewrite !has_child_spec. split.
  - intros (k & v & Hk & Hp). destruct (decide (k = p)) as [->|Hne].
    + rewrite not_own_child in Hp. discriminate.
    + rewrite lookup_insert_ne in Hk by congruence. eauto.
  - intros (k & v & Hk & Hp). exists k, v. split; [|exact Hp].
    rewrite lookup_insert_ne; [exact Hk|].
    intros ->. rewrite not_own_child in Hp. discriminate.
Qed.

(** ** removeLock *)

(** When [removeLock] reports no error, neither the uid file nor the lock
    directory exists any more: an ENOENT comes only from a missing entry. *)
Ltac fault_case :=
  match goal with
  | |- context [env_fault ?E ?i ?op] => destruct (env_fault E i op) as [?f|]
  end.

Lemma removeLock_ok_absent E file s s' :
  removeLock E file s = (None, s') ->
  st_disk s' !! getLockFile file = None /\ st_disk s' !! getUidFile file = None.
Proof.
  unfold removeLock, fs_unlink, fs_rmdir, fs_call. unfold_M. cbn.
  fault_case; cbn; [discriminate|].
  unfold unlink_prim.
  destruct (st_disk s !! getUidFile file) as [[m|m c]|] eqn:Hu; cbn;
    [discriminate| |].
  - fault_case; cbn; [discriminate|]. unfold rmdir_prim. cbn.
    rewrite lookup_delete_ne by (apply uid_ne_lock).
    destruct (st_disk s !! getLockFile file) as [[m'|m' c']|] eqn:Hl; cbn;
      [|discriminate|].
    + destruct (has_child _ _); cbn; [discriminate|].
      intros [= <-]. cbn. rewrite lookup_delete_eq.
      rewrite lookup_delete_ne by (apply not_eq_sym, uid_ne_lock).
      rewrite lookup_delete_eq. auto.
    + intros [= <-]. cbn. rewrite lookup_delete_eq.
      rewrite lookup_delete_ne by (apply uid_ne_lock). auto.
  - fault_case; cbn; [discriminate|]. unfold rmdir_prim. cbn.
    destruct (st_disk s !! getLockFile file) as [[m'|m' c']|] eqn:Hl; cbn;
      [|discriminate|].
    + destruct (has_child _ _); cbn; [discriminate|].
      intros [= <-]. cbn. rewrite lookup_delete_eq.
      rewrite lookup_delete_ne by (apply not_eq_sym, uid_ne_lock). auto.
    + intros [= <-]. cbn. auto.
Qed.

(** ** C3: a failed uid write during acquisition *)

(** The plain environment with faults on some kinds of primitive call. *)
Definition env_faults (f : FsOp -> option Fault) : Env :=
  mkEnv (fun _ op => f op) (env_uuid env_plain) (env_realpath env_plain)
        (env_normalize env_plain).

Definition write_and_rmdir_fail (op : FsOp) : option Fault :=
  match op with
  | OpWriteFile _ _ => Some ENOSPC
  | OpRmdir _ => Some EBUSY
  | _ => None
  end.

Definition write_fails (op : FsOp) : option Fault :=
  match op with OpWriteFile _ _ => Some ENOSPC | _ => None end.

(** C3 (counterexample): the uid write fails with ENOSPC and the teardown's
    rmdir fails with EBUSY; acquisition reports the write error but an
    empty lock directory without a uid file stays on disk. *)
Lemma acquireLock_write_failure_leaves_dir :
  acquireLock (env_faults write_and_rmdir_fail) "/tmp/a" opts_default (st_at ∅ 100000)
  = (inl (EFault ENOSPC),
     snd (acquireLock (env_faults write_and_rmdir_fail) "/tmp/a" opts_default
                      (st_at ∅ 100000))) /\
  st_disk (snd (acquireLock (env_faults write_and_rmdir_fail) "/tmp/a" opts_default
                            (st_at ∅ 100000)))
  = {["/tmp/a.lock" := Dir 100000]}.
Proof. vm_compute. split; reflexivity. Qed.

(** C3 (amended): when [mkdir] succeeds and the write of the fresh uid
    fails, acquireLock runs [removeLock] (unlink of the uid file, then
    rmdir, ignoring ENOENT), ignores its outcome and fails with the write
    error, never with success; when the teardown reports no error, neither
    the lock directory nor the uid file is left. *)
Theorem acquireLock_write_failure E file o s s1 e s2 :
  st_locks s !! file = None ->
  fs_mkdir E (getLockFile file) s = (inr tt, s1) ->
  fs_writeFile E (getUidFile file) (env_uuid E (st_seed s1))
               (set_seed (S (st_seed s1)) s1) = (inl e, s2) ->
  acquireLock E file o s = (inl e, snd (removeLock E file s2)) /\
  (fst (removeLock E file s2) = None ->
   st_disk (snd (removeLock E file s2)) !! getLockFile file = None /\
   st_disk (snd (removeLock E file s2)) !! getUidFile file = None).
Proof.
  intros Hl Hm Hw.
  unfold acquireLock, acquireLock_body. unfold_M. rewrite Hl, Hm. cbn.
  unfold uuid_v4. rewrite Hw. cbn.
  destruct (removeLock E file s2) as [r s3] eqn:Hr. cbn.
  split; [reflexivity|]. intros ->. exact (removeLock_ok_absent E file s2 s3 Hr).
Qed.

Lemma acquireLock_write_failure_witness :
  acquireLock (env_faults write_fails) "/tmp/a" opts_default (st_at ∅ 100000)
  = (inl (EFault ENOSPC),
     snd (removeLock (env_faults write_fails) "/tmp/a"
       (snd (fs_writeFile (env_faults write_fails) (getUidFile "/tmp/a") "uidA"
         (set_seed 1 (snd (fs_mkdir (env_faults write_fails) (getLockFile "/tmp/a")
                                    (st_at ∅ 100000)))))))).
Proof.
  refine (proj1 (acquireLock_write_failure (env_faults write_fails) "/tmp/a"
            opts_default (st_at ∅ 100000) _ (EFault ENOSPC) _ _ _ _));
    vm_compute; reflexivity.
Defined.

(** ** Acquisition and release on a free path *)

Definition no_faults (E : Env) : Prop := forall i op, env_fault E i op = None.

Lemma canonicalPath_only_logs E f o s r s' :
  canonicalPath E f o s = (r, s') -> s' = set_log (st_log s') s.
Proof.
  unfold canonicalPath, fs_realpath, fs_call. unfold_M.
  destruct (o_resolve o); cbn.
  - fault_case; cbn.
    + intros [= _ <-]. reflexivity.
    + destruct (env_realpath E f); cbn; intros [= _ <-]; reflexivity.
  - intros [= _ <-]. destruct s; reflexivity.
Qed.

Lemma acquireLock_fresh E file o s :
  no_faults E ->
  st_locks s !! file = None ->
  st_disk s !! getLockFile file = None ->
  st_disk s !! getUidFile file = None ->
  acquireLock E file o s =
  (inr (env_uuid E (st_seed s)),
   mkSt (<[getUidFile file := File (st_now s) (env_uuid E (st_seed s))]>
           (<[getLockFile file := Dir (st_now s)]> (st_disk s)))
        (st_locks s) (st_objs s) (st_timers s) (st_ticks s) (st_now s)
        (S (st_seed s))
        ((st_log s ++ [OpMkdir (getLockFile file)]) ++
           [OpWriteFile (getUidFile file) (env_uuid E (st_seed s))])
        (st_notes s)).
Proof.
  intros Hnf Hl Hd Hu.
  unfold acquireLock, acquireLock_body. unfold_M. rewrite Hl.
  unfold fs_mkdir, fs_call. rewrite Hnf. unfold mkdir_prim. rewrite Hd. cbn.
  unfold uuid_v4, fs_writeFile, fs_call. rewrite Hnf. unfold writeFile_prim. cbn.
  rewrite lookup_insert_ne by (apply not_eq_sym, uid_ne_lock). rewrite Hu.
  reflexivity.
Qed.

(** Tearing down the artifact [acquireLock_fresh] created gives back the
    disk it started from. *)
Lemma removeLock_fresh E file s d m m' c :
  no_faults E ->
  st_disk s = <[getUidFile file := File m c]> (<[getLockFile file := Dir m']> d) ->
  d !! getLockFile file = None ->
  has_child d (getLockFile file) = false ->
  fst (removeLock E file s) = None /\ st_disk (snd (removeLock E file s)) = d.
Proof.
  intros Hnf Hs Hd Hc.
  assert (Hu : d !! getUidFile file = None)
    by (apply (has_child_false_lookup _ _ _ Hc), uid_file_under_lock).
  unfold removeLock, fs_unlink, fs_rmdir, fs_call. unfold_M.
  rewrite Hnf. unfold unlink_prim. rewrite Hs, lookup_insert_eq. cbn.
  rewrite Hnf. unfold rmdir_prim. cbn.
  rewrite delete_insert_id
    by (rewrite lookup_insert_ne by (apply not_eq_sym, uid_ne_lock); exact Hu).
  rewrite lookup_insert_eq, has_child_insert_self, Hc. cbn.
  split; [reflexivity|]. apply delete_insert_id. exact Hd.
Qed.

(** ** C8: acquire then release *)

(** C8: on a filesystem without I/O faults, when the canonical path has no
    lock directory and nothing below it and the registry has no entry for
    it, [lock] succeeds and an immediate call of its release function
    succeeds and leaves exactly the disk found before [lock]. *)
Theorem lock_release_roundtrip E file0 u s file s0 :
  no_faults E ->
  canonicalPath E file0 (lock_options u) s = (inr file, s0) ->
  env_normalize E file = file ->
  st_locks s !! file = None ->
  st_disk s !! getLockFile file = None ->
  has_child (st_disk s) (getLockFile file) = false ->
  exists hd s1, lock E file0 u s = (inr hd, s1) /\ hd_file hd = file /\
    fst (release E hd s1) = None /\ st_disk (snd (release E hd s1)) = st_disk s.
Proof.
  intros Hnf Hc Hn Hl Hd Hch.
  assert (Hu : st_disk s !! getUidFile file = None)
    by (apply (has_child_false_lookup _ _ _ Hch), uid_file_under_lock).
  pose proof (canonicalPath_only_logs _ _ _ _ _ _ Hc) as Hs0.
  assert (Hacq := acquireLock_fresh E file (lock_options u) s0 Hnf).
  rewrite Hs0 in Hacq. cbn in Hacq. specialize (Hacq Hl Hd Hu).
  unfold lock. unfold_M. rewrite Hc. cbn. rewrite Hs0. cbn. rewrite Hacq. cbn.
  unfold updateLock. unfold_M. cbn.
  rewrite lookup_insert_eq. cbn.
  rewrite lookup_insert_eq. cbn.
  eexists _, _. split; [reflexivity|]. split; [reflexivity|].
  unfold release, unlock, canonicalPath. unfold_M. cbn.
  rewrite !lookup_alter_eq, lookup_insert_eq. cbn. rewrite Hn.
  rewrite lookup_insert_eq. cbn.
  rewrite !lookup_alter_eq, lookup_insert_eq. cbn.
  apply (removeLock_fresh E file _ (st_disk s) (st_now s) (st_now s)
           (env_uuid E (st_seed s)) Hnf);
    [reflexivity | exact Hd | exact Hch].
Qed.

Definition st_other : St := st_at {[ "/tmp/b.lock" := Dir 0 ]} 100000.

Lemma lock_release_roundtrip_witness :
  exists hd s1,
    lock env_plain "/tmp/a" (mkUserOpts None None None None) st_other = (inr hd, s1) /\
    hd_file hd = "/tmp/a" /\
    fst (release env_plain hd s1) = None /\
    st_disk (snd (release env_plain hd s1)) = st_disk st_other.
Proof.
  assert (Hnf : no_faults env_plain) by (intros i op; reflexivity).
  assert (Hc : canonicalPath env_plain "/tmp/a" (lock_options (mkUserOpts None None None None))
                 st_other = (inr "/tmp/a", set_log [OpRealpath "/tmp/a"] st_other))
    by (vm_compute; reflexivity).
  assert (Hl : st_locks st_other !! "/tmp/a" = None) by (vm_compute; reflexivity).
  assert (Hd : st_disk st_other !! getLockFile "/tmp/a" = None) by (vm_compute; reflexivity).
  assert (Hch : has_child (st_disk st_other) (getLockFile "/tmp/a") = false)
    by (vm_compute; reflexivity).
  exact (lock_release_roundtrip env_plain "/tmp/a" _ st_other "/tmp/a" _
           Hnf Hc eq_refl Hl Hd Hch).
Defined.

(** ** Filesystem calls touch only the disk and the call log *)

Definition fs_only (s s' : St) : Prop :=
  st_locks s' = st_locks s /\ st_objs s' = st_objs s /\
  st_timers s' = st_timers s /\ st_ticks s' = st_ticks s /\
  st_now s' = st_now s /\ st_seed s' = st_seed s /\ st_notes s' = st_notes s.

Lemma fs_only_refl s : fs_only s s.
Proof. repeat split. Qed.

Lemma fs_only_trans s1 s2 s3 : fs_only s1 s2 -> fs_only s2 s3 -> fs_only s1 s3.
Proof.
  intros (?&?&?&?&?&?&?) (?&?&?&?&?&?&?). repeat split; congruence.
Qed.

Lemma fs_call_only {A} E op (run : Z -> gmap string Entry -> (ErrCode + A) * gmap string Entry) s :
  fs_only s (snd (fs_call E op run s)).
Proof.
  unfold fs_call. destruct (env_fault E _ op); [repeat split|].
  destruct (run _ _). repeat split.
Qed.

Lemma removeLock_only E file s : fs_only s (snd (removeLock E file s)).
Proof.
  unfold removeLock. unfold_M.
  pose proof (fs_call_only E (OpUnlink (getUidFile file))
                (unlink_prim (getUidFile file)) s) as H1.
  unfold fs_unlink. destruct (fs_call _ _ _ s) as [r1 s1]. cbn in H1.
  destruct (ignore_enoent r1); [exact H1|].
  pose proof (fs_call_only E (OpRmdir (getLockFile file))
                (rmdir_prim (getLockFile file)) s1) as H2.
  unfold fs_rmdir. destruct (fs_call _ _ _ s1) as [r2 s2]. cbn in H2.
  exact (fs_only_trans _ _ _ H1 H2).
Qed.

(** ** C2: the uid check of a renewal tick *)

Definition st_tick (lu : Z) (err : option ErrCode) (content : string) (now : Z) : St :=
  mkSt (<[ "/tmp/a.lock/.uid" := File 0 content ]> {[ "/tmp/a.lock" := Dir 0 ]})
       {[ "/tmp/a" := 0%nat ]}
       {[ 0%nat := mkLock "uidA" lu false err None None ]}
       ∅
       {[ 0%nat := mkTick 0 "/tmp/a" opts_default None content ]}
       now 1 [] [].

(** The uid file holds another token, but the tick also comes after the
    staleness threshold: the handle is told [EUPDATE], never [EMISMATCH]. *)
Lemma tick_mismatch_after_timeout :
  notes_of 0 (snd (tick_complete env_plain 0 (st_tick 0 None "uidB" 20000))) = [EUPDATE].
Proof. vm_compute. reflexivity. Qed.

(** C2 (amended): a tick of an unreleased handle that completes within the
    staleness threshold, with both filesystem operations successful, and
    whose trimmed uid file content differs from the handle's token: the
    handle is marked released, [locks[file]] is deleted and the handle's
    callback gets [EMISMATCH]; nothing else changes, the disk included. *)
Theorem tick_complete_mismatch E k s tk l :
  st_ticks s !! k = Some tk ->
  st_objs s !! tk_lock tk = Some l ->
  lk_released l = false ->
  st_now s - o_stale (tk_opts tk) < lk_lastUpdate l ->
  tk_err tk = None ->
  trim (tk_read tk) <> lk_uid l ->
  tick_complete E k s =
  (tt, set_notes (st_notes s ++ [(tk_lock tk, EMISMATCH)])
         (set_locks (delete (tk_file tk) (st_locks s))
            (set_objs (alter (set_released true) (tk_lock tk) (st_objs s))
               (set_ticks (delete k (st_ticks s)) s)))).
Proof.
  intros Hk Hl Hr Ht He Hu.
  apply String.eqb_neq in Hu.
  assert (Hb : (lk_lastUpdate l <=? st_now s - o_stale (tk_opts tk)) = false)
    by (apply Z.leb_gt; lia).
  unfold tick_complete. unfold_M. cbn. rewrite Hk. cbn. rewrite Hl, Hr. cbn.
  rewrite Hb, He, Hu. reflexivity.
Qed.

Lemma tick_complete_mismatch_witness :
  st_ticks (st_tick 5000 None "uidB" 12000) !! 0%nat = Some (mkTick 0 "/tmp/a" opts_default None "uidB") /\
  tick_complete env_plain 0 (st_tick 5000 None "uidB" 12000) =
  (tt, set_notes (st_notes (st_tick 5000 None "uidB" 12000) ++ [(0%nat, EMISMATCH)])
         (set_locks (delete "/tmp/a" (st_locks (st_tick 5000 None "uidB" 12000)))
            (set_objs (alter (set_released true) 0%nat (st_objs (st_tick 5000 None "uidB" 12000)))
               (set_ticks (delete 0%nat (st_ticks (st_tick 5000 None "uidB" 12000)))
                  (st_tick 5000 None "uidB" 12000))))).
Proof.
  assert (Hk : st_ticks (st_tick 5000 None "uidB" 12000) !! 0%nat
               = Some (mkTick 0 "/tmp/a" opts_default None "uidB"))
    by (vm_compute; reflexivity).
  assert (Hl : st_objs (st_tick 5000 None "uidB" 12000) !! 0%nat
               = Some (mkLock "uidA" 5000 false None None None))
    by (vm_compute; reflexivity).
  assert (Ht : st_now (st_tick 5000 None "uidB" 12000) - o_stale opts_default < 5000)
    by (vm_compute; reflexivity).
  assert (Hu : trim "uidB" <> "uidA") by (vm_compute; discriminate).
  split; [exact Hk|].
  exact (tick_complete_mismatch env_plain 0 _ _ _ Hk Hl eq_refl Ht eq_refl Hu).
Defined.

(** ** C9: the staleness deadline of a renewal tick *)

(** The tick comes after the staleness threshold and the last failed
    renewal left [EIO] in [lock.updateError]: the handle is told [EIO],
    not the update-timeout error. *)
Lemma tick_timeout_reports_update_error :
  notes_of 0 (snd (tick_complete env_plain 0
                     (st_tick 0 (Some (EFault EIO)) "uidA" 20000))) = [EFault EIO].
Proof. vm_compute. reflexivity. Qed.

(** The state [unlock] leaves before its teardown: the recorded timer
    cleared, the lock marked released and its registry entry deleted. *)
Definition unlocked_state (file : string) (h : nat) (l : LockObj) (s : St) : St :=
  set_locks (delete file (st_locks s))
    (set_objs (alter (set_released true) h (st_objs s))
       (set_timers (match lk_updateTimeout l with
                    | Some t => delete t (st_timers s)
                    | None => st_timers s
                    end) s)).

(** C9 (amended): a tick of an unreleased handle, registered under its
    file, that completes when [now - lastUpdate >= stale], whatever its
    filesystem results: the tick runs [unlock] on the file (timer
    cleared, handle released, registry entry deleted, teardown run with
    its outcome ignored), then calls the handle's callback with the
    remembered [lock.updateError], or [EUPDATE] when there is none. *)
Theorem tick_complete_timeout E k s tk l :
  st_ticks s !! k = Some tk ->
  st_objs s !! tk_lock tk = Some l ->
  lk_released l = false ->
  lk_lastUpdate l <= st_now s - o_stale (tk_opts tk) ->
  st_locks s !! tk_file tk = Some (tk_lock tk) ->
  env_normalize E (tk_file tk) = tk_file tk ->
  let s1 := snd (removeLock E (tk_file tk)
                   (unlocked_state (tk_file tk) (tk_lock tk) l
                      (set_ticks (delete k (st_ticks s)) s))) in
  tick_complete E k s =
  (tt, set_notes (st_notes s1 ++ [(tk_lock tk, match lk_updateError l with
                                                | Some e => e
                                                | None => EUPDATE
                                                end)]) s1).
Proof.
  intros Hk Hl Hr Ht Hreg Hn. cbn zeta.
  assert (Hb : (lk_lastUpdate l <=? st_now s - o_stale (tk_opts tk)) = true)
    by (apply Z.leb_le; lia).
  unfold tick_complete. unfold_M. cbn. rewrite Hk. cbn. rewrite Hl, Hr. cbn.
  rewrite Hb. unfold unlock, canonicalPath. unfold_M. cbn. rewrite Hn, Hreg. cbn.
  rewrite Hl. cbn.
  set (s0 := unlocked_state (tk_file tk) (tk_lock tk) l (set_ticks (delete k (st_ticks s)) s)).
  assert (Hs0 : forall s2, (let (_, s') := removeLock E (tk_file tk) s2 in
                ((), set_notes (st_notes s' ++ [(tk_lock tk, match st_objs s' !! tk_lock tk ≫= lk_updateError with
                  | Some e => e | None => EUPDATE end)]) s')) = 
                ((), set_notes (st_notes (snd (removeLock E (tk_file tk) s2)) ++
                  [(tk_lock tk, match st_objs (snd (removeLock E (tk_file tk) s2)) !! tk_lock tk ≫= lk_updateError with
                  | Some e => e | None => EUPDATE end)]) (snd (removeLock E (tk_file tk) s2))))
    by (intros s2; destruct (removeLock E (tk_file tk) s2); reflexivity).
  destruct (lk_updateTimeout l) as [t|] eqn:Et; cbn.
  - rewrite Hs0. destruct (removeLock_only E (tk_file tk) s0) as (_ & Ho & _).
    replace (set_locks _ _) with s0 by (subst s0; unfold unlocked_state; rewrite Et; reflexivity).
    rewrite Ho. subst s0. unfold unlocked_state. cbn. rewrite lookup_alter_eq, Hl. cbn.
    reflexivity.
  - rewrite Hs0. destruct (removeLock_only E (tk_file tk) s0) as (_ & Ho & _).
    replace (set_locks _ _) with s0 by (subst s0; unfold unlocked_state; rewrite Et; reflexivity).
    rewrite Ho. subst s0. unfold unlocked_state. cbn. rewrite lookup_alter_eq, Hl. cbn.
    reflexivity.
Qed.

(** ** A released handle stays released and is told nothing more *)

Definition is_released (h : nat) (s : St) : bool :=
  match st_objs s !! h with Some l => lk_released l | None => false end.

(** [m] keeps lock [h] released, and adds no notification for it. *)
Definition keeps (h : nat) {A} (m : M A) : Prop :=
  forall s, is_released h s = true ->
    is_released h (snd (m s)) = true /\ notes_of h (snd (m s)) = notes_of h s.

Lemma keeps_ret h {A} (x : A) : keeps h (mret x).
Proof. intros s Hs. split; [exact Hs | reflexivity]. Qed.

Lemma keeps_bind h {A B} (m : M A) (k : A -> M B) :
  keeps h m -> (forall x, keeps h (k x)) -> keeps h (m ≫= k).
Proof.
  intros Hm Hk s Hs. unfold mbind, M_bind.
  destruct (Hm s Hs) as [H1 H2]. destruct (m s) as [x s1]. cbn in *.
  destruct (Hk x s1 H1) as [H3 H4]. split; [exact H3 | congruence].
Qed.

Lemma keeps_frame h {A} (m : M A) :
  (forall s, st_objs (snd (m s)) = st_objs s /\ st_notes (snd (m s)) = st_notes s) ->
  keeps h m.
Proof.
  intros Hm s Hs. destruct (Hm s) as [Ho Hn].
  unfold is_released, notes_of in *. rewrite Ho, Hn. split; [exact Hs | reflexivity].
Qed.

Lemma keeps_gets h {A} (f : St -> A) : keeps h (gets f).
Proof. apply keeps_frame. intros s. split; reflexivity. Qed.

Lemma keeps_fs_call h {A} E op (run : Z -> gmap string Entry -> (ErrCode + A) * gmap string Entry) :
  keeps h (fs_call E op run).
Proof.
  apply keeps_frame. intros s. destruct (fs_call_only E op run s) as (_&?&_&_&_&_&?).
  split; assumption.
Qed.

Lemma keeps_removeLock h E file : keeps h (removeLock E file).
Proof.
  apply keeps_frame. intros s. destruct (removeLock_only E file s) as (_&?&_&_&_&_&?).
  split; assumption.
Qed.

Lemma keeps_update_obj h h' f :
  (forall l, lk_released l = true -> lk_released (f l) = true) ->
  keeps h (update_obj h' f).
Proof.
  intros Hf s Hs. unfold update_obj, modify, is_released, notes_of in *. cbn.
  split; [|reflexivity].
  destruct (decide (h' = h)) as [->|Hne].
  - rewrite lookup_alter_eq. destruct (st_objs s !! h); cbn; [auto|discriminate].
  - rewrite lookup_alter_ne by exact Hne. exact Hs.
Qed.

Lemma keeps_alloc_obj h l : keeps h (alloc_obj l).
Proof.
  intros s Hs. unfold alloc_obj, is_released, notes_of in *. cbn.
  split; [|reflexivity].
  rewrite lookup_insert_ne; [exact Hs|].
  intros Heq. destruct (st_objs s !! h) eqn:E; [|discriminate].
  apply (is_fresh (dom (st_objs s))). rewrite Heq. apply elem_of_dom. eauto.
Qed.

Lemma keeps_compromised h h' e : h' <> h -> keeps h (compromised h' e).
Proof.
  intros Hne s Hs. unfold compromised, modify, is_released, notes_of in *. cbn.
  split; [exact Hs|].
  rewrite filter_app, filter_cons_False by (cbn; congruence).
  rewrite filter_nil, app_nil_r. reflexivity.
Qed.

Ltac keeps_step :=
  match goal with
  | |- keeps _ (mbind _ _) => apply keeps_bind; [|intros ?]
  | |- keeps _ (mret _) => apply keeps_ret
  | |- keeps _ skip => apply keeps_ret
  | |- keeps _ (gets _) => apply keeps_gets
  | |- keeps _ date_now => apply keeps_gets
  | |- keeps _ (get_obj _) => apply keeps_gets
  | |- keeps _ (fs_call _ _ _) => apply keeps_fs_call
  | |- keeps _ (fs_mkdir _ _) => apply keeps_fs_call
  | |- keeps _ (fs_writeFile _ _ _) => apply keeps_fs_call
  | |- keeps _ (fs_stat _ _) => apply keeps_fs_call
  | |- keeps _ (fs_readFile _ _) => apply keeps_fs_call
  | |- keeps _ (fs_utimes _ _ _) => apply keeps_fs_call
  | |- keeps _ (fs_realpath _ _) => apply keeps_fs_call
  | |- keeps _ (removeLock _ _) => apply keeps_removeLock
  | |- keeps _ (update_obj _ _) => apply keeps_update_obj; intros ? ?; assumption
  | |- keeps _ (update_obj _ (set_released true)) =>
      apply keeps_update_obj; intros ? ?; reflexivity
  | |- keeps _ (alloc_obj _) => apply keeps_alloc_obj
  | |- keeps _ (modify _) => apply keeps_frame; intros ?; split; reflexivity
  | |- keeps _ (uuid_v4 _) => apply keeps_frame; intros ?; split; reflexivity
  | |- keeps _ (set_timeout _) => apply keeps_frame; intros ?; split; reflexivity
  | |- keeps _ (registry_delete _) => apply keeps_frame; intros ?; split; reflexivity
  | |- keeps _ (clear_timeout _) => apply keeps_frame; intros ?; split; reflexivity
  | |- keeps _ (match ?x with _ => _ end) => destruct x
  end.

Lemma keeps_canonicalPath h E file o : keeps h (canonicalPath E file o).
Proof. unfold canonicalPath. repeat keeps_step. Qed.

Lemma keeps_acquireLock_body h E rec file o :
  (forall f o', keeps h (rec f o')) -> keeps h (acquireLock_body E rec file o).
Proof.
  intros Hrec. unfold acquireLock_body.
  repeat (keeps_step || apply Hrec).
Qed.

Lemma keeps_get_obj_bind h h' {A} (k : option LockObj -> M A) :
  (forall ol, (h' = h -> exists l, ol = Some l /\ lk_released l = true) -> keeps h (k ol)) ->
  keeps h (get_obj h' ≫= k).
Proof.
  intros Hk s Hs. unfold mbind, M_bind, get_obj, gets. apply Hk; [|exact Hs].
  intros ->. unfold is_released in Hs. destruct (st_objs s !! h); [eauto|discriminate].
Qed.

Lemma keeps_acquireLock h E file o : keeps h (acquireLock E file o).
Proof.
  unfold acquireLock. apply keeps_acquireLock_body. intros f o'.
  apply keeps_acquireLock_body. intros f' o''. apply keeps_ret.
Qed.

Lemma keeps_updateLock h E file o : keeps h (updateLock E file o).
Proof. unfold updateLock. repeat keeps_step. Qed.

Lemma keeps_unlock h E file o : keeps h (unlock E file o).
Proof.
  unfold unlock. apply keeps_bind; [apply keeps_canonicalPath|]. intros c.
  repeat keeps_step.
Qed.

Lemma keeps_lock h E file u : keeps h (lock E file u).
Proof.
  unfold lock. apply keeps_bind; [apply keeps_canonicalPath|]. intros c.
  destruct c; [apply keeps_ret|].
  apply keeps_bind; [apply keeps_acquireLock|]. intros r.
  destruct r; [apply keeps_ret|].
  repeat (keeps_step || apply keeps_updateLock).
Qed.

Lemma keeps_release h E hd : keeps h (release E hd).
Proof.
  unfold release. apply keeps_bind; [apply keeps_gets|]. intros ol.
  destruct (match ol with Some l => lk_released l | None => false end);
    [apply keeps_ret | apply keeps_unlock].
Qed.

Lemma keeps_fire h E t : keeps h (fire E t).
Proof. unfold fire. repeat keeps_step. Qed.

(** A tick only notifies its own lock, and only when it read it unreleased. *)
Lemma keeps_tick_complete h E k : keeps h (tick_complete E k).
Proof.
  unfold tick_complete. apply keeps_bind; [apply keeps_gets|]. intros ticks.
  destruct (ticks !! k) as [tk|]; [|apply keeps_ret].
  apply keeps_bind; [apply keeps_frame; intros ?; split; reflexivity|]. intros _.
  apply keeps_get_obj_bind. intros ol Hol.
  destruct ol as [l|]; [|apply keeps_ret].
  destruct (lk_released l) eqn:Er; [apply keeps_ret|].
  assert (Hne : tk_lock tk <> h)
    by (intros Heq; destruct (Hol Heq) as (l0 & [= <-] & Hr); congruence).
  repeat (keeps_step || apply keeps_unlock || apply keeps_updateLock
          || (apply keeps_compromised; exact Hne)).
Qed.

Lemma keeps_step_ev h E ev s :
  is_released h s = true ->
  is_released h (step E ev s) = true /\ notes_of h (step E ev s) = notes_of h s.
Proof.
  intros Hs. destruct ev; cbn.
  - apply keeps_lock, Hs.
  - apply keeps_release, Hs.
  - apply keeps_unlock, Hs.
  - apply keeps_fire, Hs.
  - apply keeps_tick_complete, Hs.
  - split; [exact Hs | reflexivity].
  - split; [exact Hs | reflexivity].
Qed.

Lemma keeps_run h E evs s :
  is_released h s = true ->
  is_released h (run E evs s) = true /\ notes_of h (run E evs s) = notes_of h s.
Proof.
  revert s. induction evs as [|ev evs IH]; intros s Hs; cbn; [auto|].
  destruct (keeps_step_ev h E ev s Hs) as [H1 H2].
  destruct (IH _ H1) as [H3 H4]. split; [exact H3 | congruence].
Qed.

(** The release function of a released handle refuses and changes nothing. *)
Lemma release_released E hd s :
  is_released (hd_lock hd) s = true -> release E hd s = (Some ERELEASED, s).
Proof.
  unfold release, is_released. unfold_M. intros Hs. rewrite Hs. reflexivity.
Qed.

Lemma tick_complete_timeout_witness :
  let s := st_tick 0 None "uidA" 20000 in
  let s1 := snd (removeLock env_plain "/tmp/a"
                   (unlocked_state "/tmp/a" 0 (mkLock "uidA" 0 false None None None)
                      (set_ticks (delete 0%nat (st_ticks s)) s))) in
  tick_complete env_plain 0 s = (tt, set_notes (st_notes s1 ++ [(0%nat, EUPDATE)]) s1).
Proof.
  assert (Hk : st_ticks (st_tick 0 None "uidA" 20000) !! 0%nat
               = Some (mkTick 0 "/tmp/a" opts_default None "uidA"))
    by (vm_compute; reflexivity).
  assert (Hl : st_objs (st_tick 0 None "uidA" 20000) !! 0%nat
               = Some (mkLock "uidA" 0 false None None None))
    by (vm_compute; reflexivity).
  assert (Ht : 0 <= st_now (st_tick 0 None "uidA" 20000) - o_stale opts_default)
    by (vm_compute; discriminate).
  assert (Hr : st_locks (st_tick 0 None "uidA" 20000) !! "/tmp/a" = Some 0%nat)
    by (vm_compute; reflexivity).
  exact (tick_complete_timeout env_plain 0 _ _ _ Hk Hl eq_refl Ht Hr eq_refl).
Defined.

(** ** C10: after a uid mismatch the release function refuses *)

(** C10: when a tick reports [EMISMATCH] to a handle (unreleased, within
    the staleness threshold, both filesystem operations successful,
    trimmed content different from the token), the handle's callback got
    [EMISMATCH]; from then on, after any further events, its release
    function returns [ERELEASED] and leaves the whole state, the disk
    included, unchanged. *)
Theorem mismatch_then_release_refused E k s tk l :
  st_ticks s !! k = Some tk ->
  st_objs s !! tk_lock tk = Some l ->
  lk_released l = false ->
  st_now s - o_stale (tk_opts tk) < lk_lastUpdate l ->
  tk_err tk = None ->
  trim (tk_read tk) <> lk_uid l ->
  notes_of (tk_lock tk) (snd (tick_complete E k s)) = notes_of (tk_lock tk) s ++ [EMISMATCH] /\
  forall evs hd, hd_lock hd = tk_lock tk ->
    let s' := run E evs (snd (tick_complete E k s)) in
    release E hd s' = (Some ERELEASED, s').
Proof.
  intros Hk Hl Hr Ht He Hu.
  apply String.eqb_neq in Hu.
  assert (Hb : (lk_lastUpdate l <=? st_now s - o_stale (tk_opts tk)) = false)
    by (apply Z.leb_gt; lia).
  assert (Heq : tick_complete E k s =
    (tt, set_notes (st_notes s ++ [(tk_lock tk, EMISMATCH)])
           (set_locks (delete (tk_file tk) (st_locks s))
              (set_objs (alter (set_released true) (tk_lock tk) (st_objs s))
                 (set_ticks (delete k (st_ticks s)) s))))).
  { unfold tick_complete. unfold_M. cbn. rewrite Hk. cbn. rewrite Hl, Hr. cbn.
    rewrite Hb, He, Hu. reflexivity. }
  rewrite Heq. cbn. split.
  - unfold notes_of. cbn. rewrite filter_app, fmap_app.
    rewrite filter_cons_True by reflexivity. reflexivity.
  - intros evs hd Hh. cbn zeta. apply release_released. rewrite Hh.
    apply keeps_run. unfold is_released. cbn. rewrite lookup_alter_eq, Hl. reflexivity.
Qed.

Lemma mismatch_then_release_refused_witness :
  notes_of 0 (snd (tick_complete env_plain 0 (st_tick 5000 None "uidB" 12000)))
    = notes_of 0 (st_tick 5000 None "uidB" 12000) ++ [EMISMATCH] /\
  let s' := run env_plain [EvClock 4000; EvLock "/tmp/a" (mkUserOpts None None None None)]
              (snd (tick_complete env_plain 0 (st_tick 5000 None "uidB" 12000))) in
  release env_plain (mkHandle "/tmp/a" 0 opts_default) s' = (Some ERELEASED, s').
Proof.
  assert (Hk : st_ticks (st_tick 5000 None "uidB" 12000) !! 0%nat
               = Some (mkTick 0 "/tmp/a" opts_default None "uidB"))
    by (vm_compute; reflexivity).
  assert (Hl : st_objs (st_tick 5000 None "uidB" 12000) !! 0%nat
               = Some (mkLock "uidA" 5000 false None None None))
    by (vm_compute; reflexivity).
  assert (Ht : st_now (st_tick 5000 None "uidB" 12000) - o_stale opts_default < 5000)
    by (vm_compute; reflexivity).
  assert (Hu : trim "uidB" <> "uidA") by (vm_compute; discriminate).
  destruct (mismatch_then_release_refused env_plain 0 _ _ _ Hk Hl eq_refl Ht eq_refl Hu)
    as [H1 H2].
  split; [exact H1|].
  exact (H2 [EvClock 4000; EvLock "/tmp/a" (mkUserOpts None None None None)]
            (mkHandle "/tmp/a" 0 opts_default) eq_refl).
Defined.

(** ** C6: a released handle is quiet *)

(** C6: (a) a tick completing for a released lock only drops itself: no
    reschedule, no notification, no registry change, no filesystem call;
    (b) the release function of a held handle marks it released and
    removes the timer recorded in [lock.updateTimeout] from the pending
    timers; (c) once a lock is released, no sequence of events (timers
    firing, ticks completing, other locks and releases, clock, other
    processes) adds a notification for it. *)
Theorem released_handle_quiet E :
  (forall k s tk, st_ticks s !! k = Some tk -> is_released (tk_lock tk) s = true ->
     tick_complete E k s = (tt, set_ticks (delete k (st_ticks s)) s)) /\
  (forall hd s l, st_objs s !! hd_lock hd = Some l -> lk_released l = false ->
     st_locks s !! hd_file hd = Some (hd_lock hd) ->
     env_normalize E (hd_file hd) = hd_file hd ->
     is_released (hd_lock hd) (snd (release E hd s)) = true /\
     forall t, lk_updateTimeout l = Some t -> st_timers (snd (release E hd s)) !! t = None) /\
  (forall h evs s, is_released h s = true -> notes_of h (run E evs s) = notes_of h s).
Proof.
  split; [|split].
  - intros k s tk Hk Hr. unfold is_released in Hr.
    unfold tick_complete. unfold_M. cbn. rewrite Hk. cbn.
    destruct (st_objs s !! tk_lock tk) as [l|]; [|discriminate]. rewrite Hr.
    reflexivity.
  - intros hd s l Hl Hr Hreg Hn.
    unfold release, unlock, canonicalPath. unfold_M. cbn. rewrite Hl, Hr. cbn.
    rewrite Hn, Hreg. cbn. rewrite Hl. cbn.
    set (s0 := unlocked_state (hd_file hd) (hd_lock hd) l s).
    assert (Hs : forall (s2 : St),
      snd (let (_, s') := match lk_updateTimeout l with
                          | Some t => fun s3 : St => (tt, set_timers (delete t (st_timers s3)) s3)
                          | None => fun s3 : St => (tt, s3)
                          end s2 in
           let (_, s'0) := (tt, set_objs (alter (set_released true) (hd_lock hd) (st_objs s')) s') in
           let (_, s'1) := (tt, set_locks (delete (hd_file hd) (st_locks s'0)) s'0) in
           removeLock E (hd_file hd) s'1)
      = snd (removeLock E (hd_file hd) (unlocked_state (hd_file hd) (hd_lock hd) l s2)))
      by (intros s2; unfold unlocked_state; destruct (lk_updateTimeout l); reflexivity).
    rewrite Hs. fold s0.
    destruct (removeLock_only E (hd_file hd) s0) as (_ & Ho & Ht & _).
    split.
    + unfold is_released. rewrite Ho. subst s0. unfold unlocked_state. cbn.
      rewrite lookup_alter_eq, Hl. reflexivity.
    + intros t Ht'. rewrite Ht. subst s0. unfold unlocked_state. cbn.
      rewrite Ht'. apply lookup_delete_eq.
  - intros h evs s Hs. apply (keeps_run h E evs s Hs).
Qed.

Definition st_released : St :=
  mkSt ∅ ∅ {[ 0%nat := mkLock "uidA" 0 true None None None ]}
       {[ 1%nat := mkTimer 0 "/tmp/a" opts_default 5000 ]}
       {[ 0%nat := mkTick 0 "/tmp/a" opts_default None "uidB" ]}
       100000 1 [] [].

Definition st_held (extra : bool) : St :=
  mkSt (let d := <[ "/tmp/a.lock/.uid" := File 100000 "uidA" ]>
                   {[ "/tmp/a.lock" := Dir 100000 ]} in
        if extra then <[ "/tmp/a.lock/x" := File 100000 "x" ]> d else d)
       {[ "/tmp/a" := 0%nat ]}
       {[ 0%nat := mkLock "uidA" 100000 false None (Some 5000) (Some 3%nat) ]}
       {[ 3%nat := mkTimer 0 "/tmp/a" opts_default 5000 ]}
       ∅ 100000 1 [] [].

Definition hd_held : Handle := mkHandle "/tmp/a" 0 opts_default.

Lemma released_handle_quiet_witness :
  tick_complete env_plain 0 st_released
    = (tt, set_ticks (delete 0%nat (st_ticks st_released)) st_released) /\
  (is_released 0 (snd (release env_plain hd_held (st_held false))) = true /\
   st_timers (snd (release env_plain hd_held (st_held false))) !! 3%nat = None) /\
  notes_of 0 (run env_plain [EvFire 1; EvComplete 1; EvClock 20000; EvComplete 0]
                st_released) = notes_of 0 st_released.
Proof.
  destruct (released_handle_quiet env_plain) as (Ha & Hb & Hc).
  assert (Hk : st_ticks st_released !! 0%nat = Some (mkTick 0 "/tmp/a" opts_default None "uidB"))
    by (vm_compute; reflexivity).
  assert (Hr : is_released 0 st_released = true) by (vm_compute; reflexivity).
  assert (Hl : st_objs (st_held false) !! hd_lock hd_held
               = Some (mkLock "uidA" 100000 false None (Some 5000) (Some 3%nat)))
    by (vm_compute; reflexivity).
  assert (Hreg : st_locks (st_held false) !! hd_file hd_held = Some (hd_lock hd_held))
    by (vm_compute; reflexivity).
  split; [exact (Ha 0%nat st_released _ Hk Hr)|].
  split; [|exact (Hc 0%nat _ st_released Hr)].
  destruct (Hb hd_held (st_held false) _ Hl eq_refl Hreg eq_refl) as [H1 H2].
  split; [exact H1 | exact (H2 3%nat eq_refl)].
Defined.

(** ** C7: calling the release function twice *)

(** Another file was left inside the held lock directory: the first
    release reports [ENOTEMPTY] and the lock directory stays on disk; the
    second call reports [ERELEASED]. *)
Lemma release_first_call_fails_enotempty :
  fst (release env_plain hd_held (st_held true)) = Some ENOTEMPTY /\
  st_disk (snd (release env_plain hd_held (st_held true))) !! "/tmp/a.lock" = Some (Dir 100000) /\
  fst (release env_plain hd_held (snd (release env_plain hd_held (st_held true))))
    = Some ERELEASED.
Proof. vm_compute. repeat split. Qed.

(** C7 (amended): for a held handle (registered under its file, not yet
    released) the first call of its release function cancels the
    recorded timer, marks the handle released, deletes its registry entry
    and returns the outcome of the teardown (unlink of the uid file, then
    rmdir of the lock directory, ignoring ENOENT); when that outcome is
    success neither the lock directory nor the uid file is on disk
    afterwards. From then on, after any further events, every call
    returns [ERELEASED] and changes nothing, the disk included. *)
Theorem release_then_released E hd s l :
  st_objs s !! hd_lock hd = Some l ->
  lk_released l = false ->
  st_locks s !! hd_file hd = Some (hd_lock hd) ->
  env_normalize E (hd_file hd) = hd_file hd ->
  release E hd s = removeLock E (hd_file hd) (unlocked_state (hd_file hd) (hd_lock hd) l s) /\
  (fst (release E hd s) = None ->
   st_disk (snd (release E hd s)) !! getLockFile (hd_file hd) = None /\
   st_disk (snd (release E hd s)) !! getUidFile (hd_file hd) = None) /\
  forall evs, let s' := run E evs (snd (release E hd s)) in
    release E hd s' = (Some ERELEASED, s').
Proof.
  intros Hl Hr Hreg Hn.
  assert (Heq : release E hd s
                = removeLock E (hd_file hd) (unlocked_state (hd_file hd) (hd_lock hd) l s)).
  { unfold release, unlock, canonicalPath. unfold_M. cbn. rewrite Hl, Hr. cbn.
    rewrite Hn, Hreg. cbn. rewrite Hl. cbn. unfold unlocked_state.
    destruct (lk_updateTimeout l); reflexivity. }
  rewrite Heq. split; [reflexivity|]. split.
  - intros Hok.
    destruct (removeLock _ _ _) as [r s1] eqn:Hrm. cbn in *. subst r.
    exact (removeLock_ok_absent _ _ _ _ Hrm).
  - intros evs. cbn zeta. apply release_released. apply keeps_run.
    destruct (removeLock_only E (hd_file hd) (unlocked_state (hd_file hd) (hd_lock hd) l s))
      as (_ & Ho & _).
    unfold is_released. rewrite Ho. unfold unlocked_state. cbn.
    rewrite lookup_alter_eq, Hl. reflexivity.
Qed.

Lemma release_then_released_witness :
  release env_plain hd_held (st_held false)
    = removeLock env_plain "/tmp/a"
        (unlocked_state "/tmp/a" 0 (mkLock "uidA" 100000 false None (Some 5000) (Some 3%nat))
           (st_held false)) /\
  (fst (release env_plain hd_held (st_held false)) = None ->
   st_disk (snd (release env_plain hd_held (st_held false))) !! getLockFile "/tmp/a" = None /\
   st_disk (snd (release env_plain hd_held (st_held false))) !! getUidFile "/tmp/a" = None) /\
  let s' := run env_plain [EvClock 1000; EvRelease hd_held]
              (snd (release env_plain hd_held (st_held false))) in
  release env_plain hd_held s' = (Some ERELEASED, s').
Proof.
  assert (Hl : st_objs (st_held false) !! hd_lock hd_held
               = Some (mkLock "uidA" 100000 false None (Some 5000) (Some 3%nat)))
    by (vm_compute; reflexivity).
  assert (Hreg : st_locks (st_held false) !! hd_file hd_held = Some (hd_lock hd_held))
    by (vm_compute; reflexivity).
  destruct (release_then_released env_plain hd_held (st_held false) _ Hl eq_refl Hreg eq_refl)
    as (H1 & H2 & H3).
  split; [exact H1|]. split; [exact H2|].
  exact (H3 [EvClock 1000; EvRelease hd_held]).
Defined.

(* ================================================================== *)
(** * Further properties of the code *)

(** ** Which disk entries the library writes *)

(** [m] leaves every disk entry outside [P] as it was. *)
Definition frames (P : string -> Prop) {A} (m : M A) : Prop :=
  forall s k, ~ P k -> st_disk (snd (m s)) !! k = st_disk s !! k.

(** A primitive that changes at most the entry at [p]. *)
Definition only_at {A} (p : string)
    (run : Z -> gmap string Entry -> (ErrCode + A) * gmap string Entry) : Prop :=
  forall now d k, k <> p -> snd (run now d) !! k = d !! k.

Lemma frames_ret P {A} (x : A) : frames P (mret x).
Proof. intros s k _. reflexivity. Qed.

Lemma frames_bind P {A B} (m : M A) (k : A -> M B) :
  frames P m -> (forall x, frames P (k x)) -> frames P (m ≫= k).
Proof.
  intros Hm Hk s p Hp. unfold mbind, M_bind.
  specialize (Hm s p Hp). destruct (m s) as [x s1]. cbn in *.
  rewrite (Hk x s1 p Hp). exact Hm.
Qed.

Lemma frames_disk P {A} (m : M A) :
  (forall s, st_disk (snd (m s)) = st_disk s) -> frames P m.
Proof. intros Hm s k _. rewrite Hm. reflexivity. Qed.

Lemma frames_fs_at P {A} E op p (run : Z -> gmap string Entry -> (ErrCode + A) * gmap string Entry) :
  P p -> only_at p run -> frames P (fs_call E op run).
Proof.
  intros Hp Hrun s k Hk. unfold fs_call.
  destruct (env_fault E _ op); [reflexivity|].
  pose proof (Hrun (st_now s) (st_disk s) k) as H.
  destruct (run (st_now s) (st_disk s)). cbn in *. apply H. congruence.
Qed.

Lemma frames_fs_pure P {A} E op (run : Z -> gmap string Entry -> (ErrCode + A) * gmap string Entry) :
  (forall now d, snd (run now d) = d) -> frames P (fs_call E op run).
Proof.
  intros Hrun s k Hk. unfold fs_call.
  destruct (env_fault E _ op); [reflexivity|].
  pose proof (Hrun (st_now s) (st_disk s)) as H.
  destruct (run (st_now s) (st_disk s)). cbn in *. congruence.
Qed.

Lemma mkdir_only_at p : only_at p (mkdir_prim p).
Proof.
  intros now d k Hk. unfold mkdir_prim. destruct (d !! p); cbn;
    [reflexivity | apply lookup_insert_ne; congruence].
Qed.

Lemma writeFile_only_at p c : only_at p (writeFile_prim p c).
Proof.
  intros now d k Hk. unfold writeFile_prim. destruct (d !! p) as [[]|]; cbn;
    try reflexivity; apply lookup_insert_ne; congruence.
Qed.

Lemma unlink_only_at p : only_at p (unlink_prim p).
Proof.
  intros now d k Hk. unfold unlink_prim. destruct (d !! p) as [[]|]; cbn;
    try reflexivity; apply lookup_delete_ne; congruence.
Qed.

Lemma rmdir_only_at p : only_at p (rmdir_prim p).
Proof.
  intros now d k Hk. unfold rmdir_prim. destruct (d !! p) as [[]|]; cbn;
    try reflexivity; destruct (has_child d p); cbn;
    try reflexivity; apply lookup_delete_ne; congruence.
Qed.

Lemma utimes_only_at p m : only_at p (utimes_prim p m).
Proof.
  intros now d k Hk. unfold utimes_prim. destruct (d !! p) as [[]|]; cbn;
    try reflexivity; apply lookup_insert_ne; congruence.
Qed.

Lemma stat_pure p now d : snd (stat_prim p now d) = d.
Proof. unfold stat_prim. destruct (d !! p) as [[]|]; reflexivity. Qed.

Lemma readFile_pure p now d : snd (readFile_prim p now d) = d.
Proof. unfold readFile_prim. destruct (d !! p) as [[]|]; reflexivity. Qed.

(** The entries the library may write for a file [f]. *)
Definition lock_path (k : string) : Prop :=
  exists f, k = getLockFile f \/ k = getUidFile f.

Ltac frames_step :=
  match goal with
  | |- frames _ (mbind _ _) => apply frames_bind; [|intros ?]
  | |- frames _ (mret _) => apply frames_ret
  | |- frames _ skip => apply frames_ret
  | |- frames _ (fs_mkdir _ ?p) => apply (frames_fs_at _ _ _ p); [|apply mkdir_only_at]
  | |- frames _ (fs_writeFile _ ?p _) =>
      apply (frames_fs_at _ _ _ p); [|apply writeFile_only_at]
  | |- frames _ (fs_unlink _ ?p) => apply (frames_fs_at _ _ _ p); [|apply unlink_only_at]
  | |- frames _ (fs_rmdir _ ?p) => apply (frames_fs_at _ _ _ p); [|apply rmdir_only_at]
  | |- frames _ (fs_utimes _ ?p _) =>
      apply (frames_fs_at _ _ _ p); [|apply utimes_only_at]
  | |- frames _ (fs_stat _ _) => apply frames_fs_pure; apply stat_pure
  | |- frames _ (fs_readFile _ _) => apply frames_fs_pure; apply readFile_pure
  | |- frames _ (fs_realpath _ _) =>
      apply frames_fs_pure; intros ? ?; cbn; destruct (env_realpath _ _); reflexivity
  | |- frames _ (match ?x with _ => _ end) => destruct x
  | |- frames _ _ => apply frames_disk; intros ?; reflexivity
  end.

Ltac lock_path_tac :=
  match goal with
  | |- lock_path (getLockFile ?f) => exists f; left; reflexivity
  | |- lock_path (getUidFile ?f) => exists f; right; reflexivity
  | |- _ = getLockFile ?f \/ _ => left; reflexivity
  | |- _ \/ _ = getUidFile ?f => right; reflexivity
  end.

Lemma frames_removeLock P E file :
  P (getLockFile file) -> P (getUidFile file) -> frames P (removeLock E file).
Proof. intros HL HU. unfold removeLock. repeat frames_step; assumption. Qed.

Lemma frames_acquireLock_body P E rec file o :
  P (getLockFile file) -> P (getUidFile file) ->
  (forall o', frames P (rec file o')) -> frames P (acquireLock_body E rec file o).
Proof.
  intros HL HU Hrec. unfold acquireLock_body.
  repeat (frames_step || apply Hrec || apply frames_removeLock); assumption.
Qed.

Lemma frames_canonicalPath P E file o : frames P (canonicalPath E file o).
Proof. unfold canonicalPath. repeat frames_step. Qed.

Lemma frames_updateLock P E file o : frames P (updateLock E file o).
Proof. unfold updateLock. repeat frames_step. Qed.

Lemma frames_unlock E file o : frames lock_path (unlock E file o).
Proof.
  unfold unlock. apply frames_bind; [apply frames_canonicalPath|]. intros c.
  repeat (frames_step || apply frames_removeLock); lock_path_tac.
Qed.

Lemma frames_step_ev E ev s k :
  (forall d, ev <> EvExternal d) -> ~ lock_path k ->
  st_disk (step E ev s) !! k = st_disk s !! k.
Proof.
  intros Hev Hk. destruct ev as [f u|hd|f b|t|t|dt|d]; cbn.
  - revert s k Hk. unfold lock. apply frames_bind; [apply frames_canonicalPath|].
    intros c. destruct c as [e|file]; [apply frames_ret|].
    apply frames_bind.
    + unfold acquireLock. apply frames_acquireLock_body; try lock_path_tac.
      intros o'. apply frames_acquireLock_body; try lock_path_tac.
      intros o''. apply frames_ret.
    + intros r. repeat (frames_step || apply frames_updateLock).
  - revert s k Hk. unfold release. apply frames_bind; [repeat frames_step|].
    intros ol. destruct (match ol with Some l => lk_released l | None => false end);
      [apply frames_ret | apply frames_unlock].
  - apply frames_unlock, Hk.
  - revert s k Hk. change (frames lock_path (fire E t)). unfold fire.
    repeat frames_step; lock_path_tac.
  - revert s k Hk. change (frames lock_path (tick_complete E t)). unfold tick_complete.
    repeat (frames_step || apply frames_unlock || apply frames_updateLock).
  - reflexivity.
  - destruct (Hev d). reflexivity.
Qed.

(** The library writes nothing but lock directories and uid files: along
    any sequence of the library's own events (no other process changing
    the disk), every path that is neither [f.lock] nor [f.lock/.uid] for
    some [f] keeps its entry, whatever faults the filesystem reports. *)
Theorem run_writes_only_lock_paths E evs s k :
  Forall (fun ev => forall d, ev <> EvExternal d) evs ->
  ~ lock_path k ->
  st_disk (run E evs s) !! k = st_disk s !! k.
Proof.
  revert s. induction evs as [|ev evs IH]; intros s Hevs Hk; cbn; [reflexivity|].
  inversion Hevs as [|? ? Hev Hrest]; subst.
  rewrite (IH _ Hrest Hk). apply frames_step_ev; assumption.
Qed.

Lemma not_lock_path_tmp_a : ~ lock_path "/tmp/a".
Proof.
  intros [f [Hf|Hf]]; pose proof Hf as H0; apply (f_equal String.length) in Hf;
    unfold getUidFile, getLockFile in Hf, H0; rewrite ?string_app_length in Hf;
    cbn in Hf; [|lia].
  destruct f as [|c [|c' f]]; cbn in Hf; try lia.
  rewrite string_app_cons, string_app_nil in H0. discriminate.
Qed.

Definition st_user : St := st_at {[ "/tmp/a" := File 0 "data" ]} 100000.

Definition evs_demo : list Event :=
  [EvLock "/tmp/a" (mkUserOpts None None None None); EvClock 5000; EvFire 0;
   EvComplete 0; EvRelease (mkHandle "/tmp/a" 0 opts_default)].

Lemma run_writes_only_lock_paths_witness :
  st_disk (run env_plain evs_demo st_user) !! "/tmp/a" = st_disk st_user !! "/tmp/a".
Proof.
  assert (HF : Forall (fun ev => forall d, ev <> EvExternal d) evs_demo)
    by (repeat constructor; intros ? ?; discriminate).
  exact (run_writes_only_lock_paths env_plain evs_demo st_user "/tmp/a" HF
           not_lock_path_tmp_a).
Defined.

(** Acquiring and tearing down the lock of [file] write at most the two
    entries [file.lock] and [file.lock/.uid], whatever the filesystem
    reports. *)
Theorem acquire_remove_own_paths E file o :
  frames (fun k => k = getLockFile file \/ k = getUidFile file) (acquireLock E file o) /\
  frames (fun k => k = getLockFile file \/ k = getUidFile file) (removeLock E file).
Proof.
  split.
  - unfold acquireLock. apply frames_acquireLock_body; [left|right|]; try reflexivity.
    intros o'. apply frames_acquireLock_body; [left|right|]; try reflexivity.
    intros o''. apply frames_ret.
  - apply frames_removeLock; [left|right]; reflexivity.
Qed.

(** ** The renewal timer *)

Lemma fire_intact E t s tm m m' c :
  no_faults E ->
  st_timers s !! t = Some tm ->
  st_disk s !! getLockFile (tm_file tm) = Some (Dir m') ->
  st_disk s !! getUidFile (tm_file tm) = Some (File m c) ->
  fire E t s =
  (tt, set_ticks (<[t := mkTick (tm_lock tm) (tm_file tm) (tm_opts tm) None c]> (st_ticks s))
         (set_disk (<[getLockFile (tm_file tm) := Dir (st_now s)]> (st_disk s))
            (set_log ((st_log s ++ [OpReadFile (getUidFile (tm_file tm))]) ++
                        [OpUtimes (getLockFile (tm_file tm)) (st_now s)])
               (set_objs (alter (set_updateTimeout None) (tm_lock tm) (st_objs s))
                  (set_timers (delete t (st_timers s)) s))))).
Proof.
  intros Hnf Ht HL HU.
  unfold fire. unfold_M. cbn. rewrite Ht. cbn.
  unfold fs_readFile, fs_utimes, fs_call. rewrite Hnf. cbn.
  unfold readFile_prim. rewrite HU. cbn. rewrite Hnf. cbn.
  unfold utimes_prim. rewrite HL. cbn.
  reflexivity.
Qed.

(** A pending renewal timer fires on an intact lock (directory and uid
    file present) without I/O faults: the timer is no longer pending, the
    lock object forgets it ([lock.updateTimeout = null]), the lock
    directory's mtime becomes the current time, and the tick in flight
    carries no error and the uid file's content. *)
Theorem fire_refreshes_mtime E t s tm m m' c :
  no_faults E ->
  st_timers s !! t = Some tm ->
  st_disk s !! getLockFile (tm_file tm) = Some (Dir m') ->
  st_disk s !! getUidFile (tm_file tm) = Some (File m c) ->
  let s' := snd (fire E t s) in
  st_timers s' !! t = None /\
  (forall l, st_objs s !! tm_lock tm = Some l ->
     st_objs s' !! tm_lock tm = Some (set_updateTimeout None l)) /\
  st_disk s' !! getLockFile (tm_file tm) = Some (Dir (st_now s)) /\
  st_disk s' !! getUidFile (tm_file tm) = Some (File m c) /\
  st_ticks s' !! t = Some (mkTick (tm_lock tm) (tm_file tm) (tm_opts tm) None c).
Proof.
  intros Hnf Ht HL HU. cbn zeta. rewrite (fire_intact E t s tm m m' c Hnf Ht HL HU). cbn.
  split; [apply lookup_delete_eq|]. split.
  { intros l Hl. rewrite lookup_alter_eq, Hl. reflexivity. }
  split; [apply lookup_insert_eq|]. split; [|apply lookup_insert_eq].
  rewrite lookup_insert_ne by (apply not_eq_sym, uid_ne_lock). exact HU.
Qed.

Definition st_timer : St :=
  mkSt (<[ "/tmp/a.lock/.uid" := File 100000 "uidA" ]> {[ "/tmp/a.lock" := Dir 100000 ]})
       {[ "/tmp/a" := 0%nat ]}
       {[ 0%nat := mkLock "uidA" 100000 false None (Some 5000) (Some 3%nat) ]}
       {[ 3%nat := mkTimer 0 "/tmp/a" opts_default 5000 ]}
       ∅ 105000 1 [] [].

Lemma fire_refreshes_mtime_witness :
  let s' := snd (fire env_plain 3 st_timer) in
  st_timers s' !! 3%nat = None /\
  (forall l, st_objs st_timer !! 0%nat = Some l ->
     st_objs s' !! 0%nat = Some (set_updateTimeout None l)) /\
  st_disk s' !! "/tmp/a.lock" = Some (Dir 105000) /\
  st_disk s' !! "/tmp/a.lock/.uid" = Some (File 100000 "uidA") /\
  st_ticks s' !! 3%nat = Some (mkTick 0 "/tmp/a" opts_default None "uidA").
Proof.
  assert (Hnf : no_faults env_plain) by (intros i op; reflexivity).
  assert (Ht : st_timers st_timer !! 3%nat = Some (mkTimer 0 "/tmp/a" opts_default 5000))
    by (vm_compute; reflexivity).
  assert (HL : st_disk st_timer !! getLockFile "/tmp/a" = Some (Dir 100000))
    by (vm_compute; reflexivity).
  assert (HU : st_disk st_timer !! getUidFile "/tmp/a" = Some (File 100000 "uidA"))
    by (vm_compute; reflexivity).
  exact (fire_refreshes_mtime env_plain 3 st_timer _ _ _ _ Hnf Ht HL HU).
Defined.

(** ** The outcomes of a renewal tick within the staleness threshold *)

(** The state after a renewal tick that renews. *)
Lemma tick_complete_renew_fields E k s tk l :
  st_ticks s !! k = Some tk ->
  st_objs s !! tk_lock tk = Some l ->
  lk_released l = false ->
  st_now s - o_stale (tk_opts tk) < lk_lastUpdate l ->
  tk_err tk = None ->
  trim (tk_read tk) = lk_uid l ->
  st_locks s !! tk_file tk = Some (tk_lock tk) ->
  let t := fresh (dom (st_timers s) ∪ dom (delete k (st_ticks s))) in
  let s' := snd (tick_complete E k s) in
  st_objs s' !! tk_lock tk
    = Some (mkLock (lk_uid l) (st_now s) false None (Some (o_update (tk_opts tk))) (Some t)) /\
  st_timers s !! t = None /\
  st_timers s' = <[t := mkTimer (tk_lock tk) (tk_file tk) (tk_opts tk)
                          (o_update (tk_opts tk))]> (st_timers s) /\
  st_ticks s' = delete k (st_ticks s) /\
  st_locks s' = st_locks s /\ st_notes s' = st_notes s /\
  st_disk s' = st_disk s /\ st_log s' = st_log s.
Proof.
  intros Hk Hl Hr Ht He Hu Hreg. cbn zeta.
  apply String.eqb_eq in Hu.
  assert (Hb : (lk_lastUpdate l <=? st_now s - o_stale (tk_opts tk)) = false)
    by (apply Z.leb_gt; lia).
  unfold tick_complete. unfold_M. cbn. rewrite Hk. cbn. rewrite Hl, Hr. cbn.
  rewrite Hb, He, Hu. unfold updateLock. unfold_M. cbn. rewrite Hreg. cbn.
  rewrite !lookup_alter_eq, Hl. cbn.
  split; [rewrite !lookup_alter_eq, Hl; cbn;
    unfold set_updateTimeout, set_updateDelay, set_updateError, set_lastUpdate; cbn;
    rewrite Hr; reflexivity|].
  split.
  { apply not_elem_of_dom. intros Hin.
    apply (is_fresh (dom (st_timers s) ∪ dom (delete k (st_ticks s)))).
    apply elem_of_union_l. exact Hin. }
  repeat split; reflexivity.
Qed.

(** A tick of an unreleased handle registered under its file, completing
    within the staleness threshold with both filesystem operations
    successful and the uid file holding the handle's token (surrounding
    whitespace trimmed): the lock object records the current time as its
    last update, clears its remembered error, and a new renewal timer with
    the configured [update] delay is scheduled; registry,
    notifications and disk are unchanged. *)
Theorem tick_complete_renews E k s tk l :
  st_ticks s !! k = Some tk ->
  st_objs s !! tk_lock tk = Some l ->
  lk_released l = false ->
  st_now s - o_stale (tk_opts tk) < lk_lastUpdate l ->
  tk_err tk = None ->
  trim (tk_read tk) = lk_uid l ->
  st_locks s !! tk_file tk = Some (tk_lock tk) ->
  let t := fresh (dom (st_timers s) ∪ dom (delete k (st_ticks s))) in
  let s' := snd (tick_complete E k s) in
  st_objs s' !! tk_lock tk
    = Some (mkLock (lk_uid l) (st_now s) false None (Some (o_update (tk_opts tk))) (Some t)) /\
  st_timers s !! t = None /\
  st_timers s' = <[t := mkTimer (tk_lock tk) (tk_file tk) (tk_opts tk)
                          (o_update (tk_opts tk))]> (st_timers s) /\
  st_ticks s' = delete k (st_ticks s) /\
  st_locks s' = st_locks s /\ st_notes s' = st_notes s /\
  st_disk s' = st_disk s /\ st_log s' = st_log s.
Proof.
  intros Hk Hl Hr Ht He Hu Hreg.
  exact (tick_complete_renew_fields E k s tk l Hk Hl Hr Ht He Hu Hreg).
Qed.

Lemma tick_complete_renews_witness :
  let s := st_tick 5000 None "uidA
" 12000 in
  let t := fresh (dom (st_timers s) ∪ dom (delete 0%nat (st_ticks s))) in
  let s' := snd (tick_complete env_plain 0 s) in
  st_objs s' !! 0%nat
    = Some (mkLock "uidA" 12000 false None (Some (o_update opts_default)) (Some t)) /\
  st_timers s !! t = None /\
  st_timers s' = <[t := mkTimer 0 "/tmp/a" opts_default (o_update opts_default)]> (st_timers s) /\
  st_ticks s' = delete 0%nat (st_ticks s) /\
  st_locks s' = st_locks s /\ st_notes s' = st_notes s /\
  st_disk s' = st_disk s /\ st_log s' = st_log s.
Proof.
  assert (Hk : st_ticks (st_tick 5000 None "uidA
" 12000) !! 0%nat
               = Some (mkTick 0 "/tmp/a" opts_default None "uidA
"))
    by (vm_compute; reflexivity).
  assert (Hl : st_objs (st_tick 5000 None "uidA
" 12000) !! 0%nat
               = Some (mkLock "uidA" 5000 false None None None))
    by (vm_compute; reflexivity).
  assert (Ht : st_now (st_tick 5000 None "uidA
" 12000) - o_stale opts_default < 5000)
    by (vm_compute; reflexivity).
  assert (Hu : trim "uidA
" = "uidA") by (vm_compute; reflexivity).
  assert (Hreg : st_locks (st_tick 5000 None "uidA
" 12000) !! "/tmp/a" = Some 0%nat)
    by (vm_compute; reflexivity).
  exact (tick_complete_renews env_plain 0 _ _ _ Hk Hl eq_refl Ht eq_refl Hu Hreg).
Defined.

(** A tick of an unreleased handle registered under its file, completing
    within the staleness threshold with a filesystem error other than
    ENOENT: nothing is reported; the error is remembered in
    [lock.updateError], the last update time is kept, and the next
    renewal is scheduled after 1000ms whatever the configured [update]
    delay; registry, notifications and disk are unchanged. *)
Theorem tick_complete_transient_error E k s tk l e :
  st_ticks s !! k = Some tk ->
  st_objs s !! tk_lock tk = Some l ->
  lk_released l = false ->
  st_now s - o_stale (tk_opts tk) < lk_lastUpdate l ->
  tk_err tk = Some e ->
  e <> ENOENT ->
  st_locks s !! tk_file tk = Some (tk_lock tk) ->
  let t := fresh (dom (st_timers s) ∪ dom (delete k (st_ticks s))) in
  let s' := snd (tick_complete E k s) in
  st_objs s' !! tk_lock tk
    = Some (mkLock (lk_uid l) (lk_lastUpdate l) false (Some e) (Some 1000) (Some t)) /\
  st_timers s !! t = None /\
  st_timers s' = <[t := mkTimer (tk_lock tk) (tk_file tk) (tk_opts tk) 1000]> (st_timers s) /\
  st_ticks s' = delete k (st_ticks s) /\
  st_locks s' = st_locks s /\ st_notes s' = st_notes s /\
  st_disk s' = st_disk s /\ st_log s' = st_log s.
Proof.
  intros Hk Hl Hr Ht He Hne Hreg. cbn zeta.
  assert (Hb : (lk_lastUpdate l <=? st_now s - o_stale (tk_opts tk)) = false)
    by (apply Z.leb_gt; lia).
  assert (Hen : is_enoent e = false) by (destruct e; try reflexivity; congruence).
  unfold tick_complete. unfold_M. cbn. rewrite Hk. cbn. rewrite Hl, Hr. cbn.
  rewrite Hb, He, Hen. unfold updateLock. unfold_M. cbn. rewrite Hreg. cbn.
  rewrite !lookup_alter_eq, Hl. cbn.
  split; [rewrite !lookup_alter_eq, Hl; cbn;
    unfold set_updateTimeout, set_updateDelay, set_updateError; cbn;
    rewrite Hr; reflexivity|].
  split.
  { apply not_elem_of_dom. intros Hin.
    apply (is_fresh (dom (st_timers s) ∪ dom (delete k (st_ticks s)))).
    apply elem_of_union_l. exact Hin. }
  repeat split; reflexivity.
Qed.

Lemma tick_complete_transient_error_witness :
  let s := set_ticks {[ 0%nat := mkTick 0 "/tmp/a" opts_default (Some (EFault EBUSY)) "" ]}
             (st_tick 5000 None "uidA" 12000) in
  let t := fresh (dom (st_timers s) ∪ dom (delete 0%nat (st_ticks s))) in
  let s' := snd (tick_complete env_plain 0 s) in
  st_objs s' !! 0%nat
    = Some (mkLock "uidA" 5000 false (Some (EFault EBUSY)) (Some 1000) (Some t)) /\
  st_timers s !! t = None /\
  st_timers s' = <[t := mkTimer 0 "/tmp/a" opts_default 1000]> (st_timers s) /\
  st_ticks s' = delete 0%nat (st_ticks s) /\
  st_locks s' = st_locks s /\ st_notes s' = st_notes s /\
  st_disk s' = st_disk s /\ st_log s' = st_log s.
Proof.
  set (s := set_ticks {[ 0%nat := mkTick 0 "/tmp/a" opts_default (Some (EFault EBUSY)) "" ]}
              (st_tick 5000 None "uidA" 12000)).
  assert (Hk : st_ticks s !! 0%nat
               = Some (mkTick 0 "/tmp/a" opts_default (Some (EFault EBUSY)) ""))
    by (vm_compute; reflexivity).
  assert (Hl : st_objs s !! 0%nat = Some (mkLock "uidA" 5000 false None None None))
    by (vm_compute; reflexivity).
  assert (Ht : st_now s - o_stale opts_default < 5000) by (vm_compute; reflexivity).
  assert (Hreg : st_locks s !! "/tmp/a" = Some 0%nat) by (vm_compute; reflexivity).
  exact (tick_complete_transient_error env_plain 0 s _ _ _ Hk Hl eq_refl Ht eq_refl
           ltac:(discriminate) Hreg).
Defined.

(** A tick of an unreleased handle registered under its file, completing
    within the staleness threshold with ENOENT (the uid file or the lock
    directory is gone): the tick unlocks the file (timer cleared, handle
    released, registry entry deleted, teardown run with its outcome
    ignored) and reports ENOENT to the handle's callback. *)
Theorem tick_complete_enoent E k s tk l :
  st_ticks s !! k = Some tk ->
  st_objs s !! tk_lock tk = Some l ->
  lk_released l = false ->
  st_now s - o_stale (tk_opts tk) < lk_lastUpdate l ->
  tk_err tk = Some ENOENT ->
  st_locks s !! tk_file tk = Some (tk_lock tk) ->
  env_normalize E (tk_file tk) = tk_file tk ->
  let s1 := snd (removeLock E (tk_file tk)
                   (unlocked_state (tk_file tk) (tk_lock tk) l
                      (set_ticks (delete k (st_ticks s)) s))) in
  tick_complete E k s = (tt, set_notes (st_notes s1 ++ [(tk_lock tk, ENOENT)]) s1).
Proof.
  intros Hk Hl Hr Ht He Hreg Hn. cbn zeta.
  assert (Hb : (lk_lastUpdate l <=? st_now s - o_stale (tk_opts tk)) = false)
    by (apply Z.leb_gt; lia).
  unfold tick_complete. unfold_M. cbn. rewrite Hk. cbn. rewrite Hl, Hr. cbn.
  rewrite Hb, He. cbn. unfold unlock, canonicalPath. unfold_M. cbn. rewrite Hn, Hreg. cbn.
  rewrite Hl. cbn. unfold unlocked_state.
  destruct (lk_updateTimeout l); cbn;
    destruct (removeLock _ _ _); reflexivity.
Qed.

Lemma tick_complete_enoent_witness :
  let s := set_ticks {[ 0%nat := mkTick 0 "/tmp/a" opts_default (Some ENOENT) "" ]}
             (st_tick 5000 None "uidA" 12000) in
  let s1 := snd (removeLock env_plain "/tmp/a"
                   (unlocked_state "/tmp/a" 0 (mkLock "uidA" 5000 false None None None)
                      (set_ticks (delete 0%nat (st_ticks s)) s))) in
  tick_complete env_plain 0 s = (tt, set_notes (st_notes s1 ++ [(0%nat, ENOENT)]) s1).
Proof.
  set (s := set_ticks {[ 0%nat := mkTick 0 "/tmp/a" opts_default (Some ENOENT) "" ]}
              (st_tick 5000 None "uidA" 12000)).
  assert (Hk : st_ticks s !! 0%nat = Some (mkTick 0 "/tmp/a" opts_default (Some ENOENT) ""))
    by (vm_compute; reflexivity).
  assert (Hl : st_objs s !! 0%nat = Some (mkLock "uidA" 5000 false None None None))
    by (vm_compute; reflexivity).
  assert (Ht : st_now s - o_stale opts_default < 5000) by (vm_compute; reflexivity).
  assert (Hreg : st_locks s !! "/tmp/a" = Some 0%nat) by (vm_compute; reflexivity).
  exact (tick_complete_enoent env_plain 0 s _ _ Hk Hl eq_refl Ht eq_refl Hreg eq_refl).
Defined.

(** ** lock and unlock *)







(** [unlock] of a path this process does not hold (the resolution fails,
    or the canonical path has no registry entry) returns the resolution
    error or ENOTACQUIRED and changes nothing but the call log of the
    resolution: in particular it never removes a lock directory, held by
    another process or not. *)
Theorem unlock_unheld_no_teardown E file0 o s c s0 :
  canonicalPath E file0 o s = (c, s0) ->
  s0 = set_log (st_log s0) s /\
  (forall e, c = inl e -> unlock E file0 o s = (Some e, s0)) /\
  (forall file, c = inr file -> st_locks s !! file = None ->
     unlock E file0 o s = (Some ENOTACQUIRED, s0)).
Proof.
  intros Hc. pose proof (canonicalPath_only_logs _ _ _ _ _ _ Hc) as Hs0.
  split; [exact Hs0|]. split.
  - intros e ->. unfold unlock. unfold mbind at 1, M_bind at 1. rewrite Hc. reflexivity.
  - intros file -> Hl. unfold unlock. unfold mbind at 1, M_bind at 1. rewrite Hc.
    assert (Hl0 : st_locks s0 !! file = None) by (rewrite Hs0; exact Hl).
    unfold_M. cbn. rewrite Hl0. reflexivity.
Qed.

Lemma unlock_unheld_no_teardown_witness :
  snd (canonicalPath env_plain "/tmp/b" opts_default st_timer)
    = set_log (st_log (snd (canonicalPath env_plain "/tmp/b" opts_default st_timer))) st_timer /\
  (forall e, inr "/tmp/b" = @inl ErrCode string e ->
     unlock env_plain "/tmp/b" opts_default st_timer
     = (Some e, snd (canonicalPath env_plain "/tmp/b" opts_default st_timer))) /\
  (forall file, inr "/tmp/b" = @inr ErrCode string file -> st_locks st_timer !! file = None ->
     unlock env_plain "/tmp/b" opts_default st_timer
     = (Some ENOTACQUIRED, snd (canonicalPath env_plain "/tmp/b" opts_default st_timer))).
Proof.
  assert (Hc : canonicalPath env_plain "/tmp/b" opts_default st_timer
               = (inr "/tmp/b", snd (canonicalPath env_plain "/tmp/b" opts_default st_timer)))
    by (vm_compute; reflexivity).
  destruct (unlock_unheld_no_teardown env_plain "/tmp/b" opts_default st_timer _ _ Hc)
    as (H1 & H2 & H3).
  split; [exact H1|split; [exact H2 | exact H3]].
Defined.

(** The public [unlock] of a registered path and the release function of
    the handle share one lock object: after [unlock] (which cancels the
    recorded timer, marks the object released, deletes the registry entry
    and runs the teardown), the release function of any handle of that
    object returns ERELEASED and changes nothing, after any further
    events. *)
Theorem unlock_then_release_refused E file0 o s file s0 h l :
  canonicalPath E file0 o s = (inr file, s0) ->
  st_locks s !! file = Some h ->
  st_objs s !! h = Some l ->
  unlock E file0 o s = removeLock E file (unlocked_state file h l s0) /\
  forall evs hd, hd_lock hd = h ->
    let s' := run E evs (snd (unlock E file0 o s)) in
    release E hd s' = (Some ERELEASED, s').
Proof.
  intros Hc Hreg Hl.
  pose proof (canonicalPath_only_logs _ _ _ _ _ _ Hc) as Hs0.
  assert (Hreg0 : st_locks s0 !! file = Some h) by (rewrite Hs0; exact Hreg).
  assert (Hl0 : st_objs s0 !! h = Some l) by (rewrite Hs0; exact Hl).
  assert (Heq : unlock E file0 o s = removeLock E file (unlocked_state file h l s0)).
  { unfold unlock. unfold mbind at 1, M_bind at 1. rewrite Hc.
    unfold_M. cbn. rewrite Hreg0. cbn. rewrite Hl0. cbn. unfold unlocked_state.
    destruct (lk_updateTimeout l); reflexivity. }
  split; [exact Heq|].
  intros evs hd Hh. cbn zeta. apply release_released. rewrite Hh.
  apply keeps_run. rewrite Heq.
  destruct (removeLock_only E file (unlocked_state file h l s0)) as (_ & Ho & _).
  unfold is_released. rewrite Ho. unfold unlocked_state. cbn.
  rewrite lookup_alter_eq, Hl0. reflexivity.
Qed.

Lemma unlock_then_release_refused_witness :
  unlock env_plain "/tmp/a" opts_default st_timer
    = removeLock env_plain "/tmp/a"
        (unlocked_state "/tmp/a" 0 (mkLock "uidA" 100000 false None (Some 5000) (Some 3%nat))
           (snd (canonicalPath env_plain "/tmp/a" opts_default st_timer))) /\
  let s' := run env_plain [EvClock 1000] (snd (unlock env_plain "/tmp/a" opts_default st_timer)) in
  release env_plain hd_held s' = (Some ERELEASED, s').
Proof.
  assert (Hc : canonicalPath env_plain "/tmp/a" opts_default st_timer
               = (inr "/tmp/a", snd (canonicalPath env_plain "/tmp/a" opts_default st_timer)))
    by (vm_compute; reflexivity).
  assert (Hreg : st_locks st_timer !! "/tmp/a" = Some 0%nat) by (vm_compute; reflexivity).
  assert (Hl : st_objs st_timer !! 0%nat
               = Some (mkLock "uidA" 100000 false None (Some 5000) (Some 3%nat)))
    by (vm_compute; reflexivity).
  destruct (unlock_then_release_refused env_plain "/tmp/a" opts_default st_timer _ _ _ _
              Hc Hreg Hl) as [H1 H2].
  split; [exact H1 | exact (H2 [EvClock 1000] hd_held eq_refl)].
Defined.

(** ** Contention with a lock held elsewhere *)

(** [acquireLock] never disturbs a lock directory whose mtime is within
    the staleness threshold, whatever the filesystem reports: the call
    fails, with ELOCKED or an I/O fault, and the disk is unchanged. *)
Theorem acquireLock_respects_fresh_lock E file o s m :
  st_disk s !! getLockFile file = Some (Dir m) ->
  st_now s - o_stale o <= m ->
  (fst (acquireLock E file o s) = inl ELOCKED \/
   exists f, fst (acquireLock E file o s) = inl (EFault f)) /\
  st_disk (snd (acquireLock E file o s)) = st_disk s.
Proof.
  intros HL Hm.
  assert (Hb : (st_now s - o_stale o <=? m) = true) by (apply Z.leb_le; lia).
  unfold acquireLock, acquireLock_body. unfold_M. cbn.
  destruct (st_locks s !! file); [auto|]. cbn.
  unfold fs_mkdir, fs_call. fault_case; cbn.
  - destruct (o_stale o <=? 0); [cbn; auto|].
    unfold fs_stat, fs_call. fault_case; cbn; [eauto|].
    unfold stat_prim. rewrite HL. cbn. rewrite Hb. cbn. auto.
  - unfold mkdir_prim. rewrite HL. cbn.
    destruct (o_stale o <=? 0); [cbn; auto|].
    unfold fs_stat, fs_call. fault_case; cbn; [eauto|].
    unfold stat_prim. rewrite HL. cbn. rewrite Hb. cbn. auto.
Qed.

Lemma acquireLock_respects_fresh_lock_witness :
  (fst (acquireLock env_plain "/tmp/a" opts_default (set_locks ∅ st_timer)) = inl ELOCKED \/
   exists f, fst (acquireLock env_plain "/tmp/a" opts_default (set_locks ∅ st_timer))
             = inl (EFault f)) /\
  st_disk (snd (acquireLock env_plain "/tmp/a" opts_default (set_locks ∅ st_timer)))
    = st_disk (set_locks ∅ st_timer).
Proof.
  assert (HL : st_disk (set_locks ∅ st_timer) !! getLockFile "/tmp/a" = Some (Dir 100000))
    by (vm_compute; reflexivity).
  assert (Hm : st_now (set_locks ∅ st_timer) - o_stale opts_default <= 100000)
    by (vm_compute; discriminate).
  exact (acquireLock_respects_fresh_lock env_plain "/tmp/a" opts_default _ _ HL Hm).
Defined.

(** Tearing down a lock directory left behind, with or without its uid
    file, removes exactly those two entries. *)
Lemma removeLock_stale_dir E file s m :
  no_faults E ->
  st_disk s !! getLockFile file = Some (Dir m) ->
  (st_disk s !! getUidFile file = None \/
   exists mu c, st_disk s !! getUidFile file = Some (File mu c)) ->
  has_child (delete (getUidFile file) (st_disk s)) (getLockFile file) = false ->
  fst (removeLock E file s) = None /\
  st_disk (snd (removeLock E file s))
    = delete (getLockFile file) (delete (getUidFile file) (st_disk s)).
Proof.
  intros Hnf HL Hu Hc.
  unfold removeLock, fs_unlink, fs_rmdir, fs_call. unfold_M.
  rewrite Hnf. unfold unlink_prim.
  destruct Hu as [Hu|(mu & c & Hu)]; rewrite Hu; cbn.
  - rewrite Hnf. unfold rmdir_prim. cbn. rewrite HL.
    rewrite delete_id in Hc by exact Hu. rewrite Hc. cbn.
    rewrite (delete_id (st_disk s) (getUidFile file)) by exact Hu.
    split; reflexivity.
  - rewrite Hnf. unfold rmdir_prim. cbn.
    rewrite lookup_delete_ne by (apply uid_ne_lock). rewrite HL, Hc. cbn.
    split; reflexivity.
Qed.

(** [acquireLock] takes over a stale lock: with no I/O fault, when the
    lock directory is older than the staleness threshold (and [stale] is
    positive), no lock of this process is registered for the path, the
    directory holds nothing but possibly its uid file, the call removes
    the old directory, retries with [stale: 0], and succeeds with a fresh
    token: a new directory stamped now and a uid file holding the
    token; every other entry of the disk and the registry are kept. *)
Theorem acquireLock_takes_over_stale E file o s m :
  no_faults E ->
  0 < o_stale o ->
  st_locks s !! file = None ->
  st_disk s !! getLockFile file = Some (Dir m) ->
  m < st_now s - o_stale o ->
  (st_disk s !! getUidFile file = None \/
   exists mu c, st_disk s !! getUidFile file = Some (File mu c)) ->
  has_child (delete (getUidFile file) (st_disk s)) (getLockFile file) = false ->
  fst (acquireLock E file o s) = inr (env_uuid E (st_seed s)) /\
  st_disk (snd (acquireLock E file o s))
    = <[getUidFile file := File (st_now s) (env_uuid E (st_seed s))]>
        (<[getLockFile file := Dir (st_now s)]>
           (delete (getLockFile file) (delete (getUidFile file) (st_disk s)))) /\
  st_locks (snd (acquireLock E file o s)) = st_locks s.
Proof.
  intros Hnf Hst Hl HL Hm Hu Hc.
  assert (Hb0 : (o_stale o <=? 0) = false) by (apply Z.leb_gt; lia).
  assert (Hb : (st_now s - o_stale o <=? m) = false) by (apply Z.leb_gt; lia).
  rewrite acquireLock_unfold. unfold acquireLock_body. unfold_M.
  rewrite Hl. unfold fs_mkdir, fs_stat, fs_call. rewrite !Hnf.
  unfold mkdir_prim. rewrite HL. cbn. rewrite Hb0. rewrite !Hnf.
  unfold stat_prim. cbn. rewrite HL. cbn. rewrite Hb.
  match goal with
  | |- context [removeLock E file ?s2] =>
      destruct (removeLock_stale_dir E file s2 m Hnf HL Hu Hc) as [Hr1 Hr2];
      destruct (removeLock_only E file s2) as (Hk1 & Hk2 & Hk3 & Hk4 & Hk5 & Hk6 & Hk7);
      destruct (removeLock E file s2) as [r s3] eqn:Hrm
  end.
  cbn in Hr1, Hr2, Hk1, Hk5, Hk6. subst r.
  rewrite acquireLock_fresh.
  - cbn. rewrite ?Hk6, ?Hk5, ?Hr2. auto.
  - exact Hnf.
  - rewrite Hk1. exact Hl.
  - rewrite Hr2. apply lookup_delete_eq.
  - rewrite Hr2, lookup_delete_ne by (apply not_eq_sym, uid_ne_lock).
    apply lookup_delete_eq.
Qed.

(** A stale lock directory of another process at "/tmp/a" with its uid
    file. *)
Definition st_stale : St :=
  st_at {["/tmp/a.lock" := Dir 0; "/tmp/a.lock/.uid" := File 0 "uidZ"]} 100000.

Lemma acquireLock_takes_over_stale_witness :
  fst (acquireLock env_plain "/tmp/a" opts_default st_stale)
    = inr (env_uuid env_plain (st_seed st_stale)) /\
  st_disk (snd (acquireLock env_plain "/tmp/a" opts_default st_stale))
    = <[getUidFile "/tmp/a" := File (st_now st_stale) (env_uuid env_plain (st_seed st_stale))]>
        (<[getLockFile "/tmp/a" := Dir (st_now st_stale)]>
           (delete (getLockFile "/tmp/a")
              (delete (getUidFile "/tmp/a") (st_disk st_stale)))) /\
  st_locks (snd (acquireLock env_plain "/tmp/a" opts_default st_stale)) = st_locks st_stale.
Proof.
  assert (Hnf : no_faults env_plain) by (intros i op; reflexivity).
  assert (Hst : 0 < o_stale opts_default) by (vm_compute; reflexivity).
  assert (Hl : st_locks st_stale !! "/tmp/a" = None) by (vm_compute; reflexivity).
  assert (HL : st_disk st_stale !! getLockFile "/tmp/a" = Some (Dir 0))
    by (vm_compute; reflexivity).
  assert (Hm : 0 < st_now st_stale - o_stale opts_default) by (vm_compute; reflexivity).
  assert (Hu : st_disk st_stale !! getUidFile "/tmp/a" = None \/
               exists mu c, st_disk st_stale !! getUidFile "/tmp/a" = Some (File mu c))
    by (right; exists 0, "uidZ"; vm_compute; reflexivity).
  assert (Hc : has_child (delete (getUidFile "/tmp/a") (st_disk st_stale))
                 (getLockFile "/tmp/a") = false) by (vm_compute; reflexivity).
  exact (acquireLock_takes_over_stale env_plain "/tmp/a" opts_default st_stale 0
           Hnf Hst Hl HL Hm Hu Hc).
Defined.

(** ** One heartbeat: a timer fires and its tick completes *)

(** A full renewal cycle of a healthy lock, with no I/O fault: the
    pending timer of an unreleased lock registered under its file fires
    while the lock directory and the uid file are in place, the uid file
    holds the lock's token, and the tick completes at the same time,
    within the staleness threshold. Afterwards the lock directory is
    stamped with the current time and nothing else on disk changes; the
    fired timer is replaced by one new timer with the [update] delay,
    which the lock object records together with the new [lastUpdate] and a
    cleared error; no tick is left in flight for the timer, and the
    registry and the notifications are unchanged. *)
Theorem heartbeat_renews E t s tm l m m' c :
  no_faults E ->
  st_timers s !! t = Some tm ->
  st_disk s !! getLockFile (tm_file tm) = Some (Dir m') ->
  st_disk s !! getUidFile (tm_file tm) = Some (File m c) ->
  st_objs s !! tm_lock tm = Some l ->
  lk_released l = false ->
  st_now s - o_stale (tm_opts tm) < lk_lastUpdate l ->
  trim c = lk_uid l ->
  st_locks s !! tm_file tm = Some (tm_lock tm) ->
  let s' := run E [EvFire t; EvComplete t] s in
  exists t',
    delete t (st_timers s) !! t' = None /\
    st_timers s' = <[t' := mkTimer (tm_lock tm) (tm_file tm) (tm_opts tm)
                             (o_update (tm_opts tm))]> (delete t (st_timers s)) /\
    st_objs s' !! tm_lock tm
      = Some (mkLock (lk_uid l) (st_now s) false None
                (Some (o_update (tm_opts tm))) (Some t')) /\
    st_disk s' = <[getLockFile (tm_file tm) := Dir (st_now s)]> (st_disk s) /\
    st_ticks s' = delete t (st_ticks s) /\
    st_locks s' = st_locks s /\ st_notes s' = st_notes s.
Proof.
  intros Hnf Ht HL HU Hl Hr Hlu Hu Hreg. cbn zeta. cbn [run step].
  rewrite (fire_intact E t s tm m m' c Hnf Ht HL HU). cbn [snd].
  match goal with
  | |- context [tick_complete E t ?s1] =>
      assert (Hk1 : st_ticks s1 !! t
                    = Some (mkTick (tm_lock tm) (tm_file tm) (tm_opts tm) None c))
        by (cbn; apply lookup_insert_eq);
      assert (Hl1 : st_objs s1 !! tk_lock (mkTick (tm_lock tm) (tm_file tm) (tm_opts tm) None c)
                    = Some (set_updateTimeout None l))
        by (cbn; rewrite lookup_alter_eq, Hl; reflexivity);
      destruct (tick_complete_renew_fields E t s1 _ _ Hk1 Hl1 Hr Hlu eq_refl Hu Hreg)
        as (Ho & Hfr & Htm & Htk & Hlk & Hn & Hd & _)
  end.
  cbn in Ho, Hfr, Htm, Htk, Hlk, Hn, Hd.
  eexists. split; [exact Hfr|]. split; [exact Htm|]. split; [exact Ho|].
  split; [exact Hd|]. split; [rewrite Htk; apply delete_insert_eq|].
  split; [exact Hlk | exact Hn].
Qed.

Lemma heartbeat_renews_witness :
  let s' := run env_plain [EvFire 3; EvComplete 3] st_timer in
  exists t',
    delete 3%nat (st_timers st_timer) !! t' = None /\
    st_timers s' = <[t' := mkTimer 0 "/tmp/a" opts_default (o_update opts_default)]>
                     (delete 3%nat (st_timers st_timer)) /\
    st_objs s' !! 0%nat
      = Some (mkLock "uidA" 105000 false None (Some (o_update opts_default)) (Some t')) /\
    st_disk s' = <[getLockFile "/tmp/a" := Dir 105000]> (st_disk st_timer) /\
    st_ticks s' = delete 3%nat (st_ticks st_timer) /\
    st_locks s' = st_locks st_timer /\ st_notes s' = st_notes st_timer.
Proof.
  assert (Hnf : no_faults env_plain) by (intros i op; reflexivity).
  assert (Ht : st_timers st_timer !! 3%nat = Some (mkTimer 0 "/tmp/a" opts_default 5000))
    by (vm_compute; reflexivity).
  assert (HL : st_disk st_timer !! getLockFile "/tmp/a" = Some (Dir 100000))
    by (vm_compute; reflexivity).
  assert (HU : st_disk st_timer !! getUidFile "/tmp/a" = Some (File 100000 "uidA"))
    by (vm_compute; reflexivity).
  assert (Hl : st_objs st_timer !! 0%nat
               = Some (mkLock "uidA" 100000 false None (Some 5000) (Some 3%nat)))
    by (vm_compute; reflexivity).
  assert (Hlu : st_now st_timer - o_stale opts_default < 100000)
    by (vm_compute; reflexivity).
  assert (Hu : trim "uidA" = "uidA") by (vm_compute; reflexivity).
  assert (Hreg : st_locks st_timer !! "/tmp/a" = Some 0%nat) by (vm_compute; reflexivity).
  exact (heartbeat_renews env_plain 3 st_timer _ _ _ _ _ Hnf Ht HL HU Hl eq_refl Hlu Hu Hreg).
Defined.

(** ** A failed [lock] leaves the process untouched *)

(** The process-level state: everything but the disk, the call log and the
    uuid generator. *)
Definition proc_only (s s' : St) : Prop :=
  st_locks s' = st_locks s /\ st_objs s' = st_objs s /\
  st_timers s' = st_timers s /\ st_ticks s' = st_ticks s /\
  st_now s' = st_now s /\ st_notes s' = st_notes s.

Definition proc_kept {A} (m : M A) : Prop := forall s, proc_only s (snd (m s)).

Lemma proc_kept_ret {A} (x : A) : proc_kept (mret x).
Proof. intros s. repeat split. Qed.

Lemma proc_kept_bind {A B} (m : M A) (k : A -> M B) :
  proc_kept m -> (forall x, proc_kept (k x)) -> proc_kept (m ≫= k).
Proof.
  intros Hm Hk s. unfold mbind, M_bind.
  pose proof (Hm s) as H1. destruct (m s) as [x s1]. cbn in H1.
  destruct H1 as (?&?&?&?&?&?). destruct (Hk x s1) as (?&?&?&?&?&?).
  repeat split; congruence.
Qed.

Lemma proc_kept_fs_call {A} E op (run : Z -> gmap string Entry -> (ErrCode + A) * gmap string Entry) :
  proc_kept (fs_call E op run).
Proof.
  intros s. destruct (fs_call_only E op run s) as (?&?&?&?&?&_&?). repeat split; assumption.
Qed.

Lemma proc_kept_removeLock E file : proc_kept (removeLock E file).
Proof.
  intros s. destruct (removeLock_only E file s) as (?&?&?&?&?&_&?). repeat split; assumption.
Qed.

Ltac proc_step :=
  match goal with
  | |- proc_kept (mret _) => apply proc_kept_ret
  | |- proc_kept (_ ≫= _) => apply proc_kept_bind; [|intros ?]
  | |- proc_kept (gets _) => intros ?; repeat split
  | |- proc_kept date_now => intros ?; repeat split
  | |- proc_kept (uuid_v4 _) => intros ?; repeat split
  | |- proc_kept (fs_call _ _ _) => apply proc_kept_fs_call
  | |- proc_kept (fs_mkdir _ _) => apply proc_kept_fs_call
  | |- proc_kept (fs_writeFile _ _ _) => apply proc_kept_fs_call
  | |- proc_kept (fs_stat _ _) => apply proc_kept_fs_call
  | |- proc_kept (fs_realpath _ _) => apply proc_kept_fs_call
  | |- proc_kept (removeLock _ _) => apply proc_kept_removeLock
  | |- proc_kept (if ?b then _ else _) => destruct b
  | |- proc_kept (match ?x with _ => _ end) => destruct x
  end.

Lemma proc_kept_acquireLock E file o : proc_kept (acquireLock E file o).
Proof.
  unfold acquireLock, acquireLock_body. repeat proc_step.
Qed.

Lemma proc_kept_canonicalPath E file o : proc_kept (canonicalPath E file o).
Proof. unfold canonicalPath. repeat proc_step. Qed.

(** When [lock] fails, whether resolving the path or acquiring the lock
    (held elsewhere, or an I/O error), it has registered nothing: the
    registry, the lock objects, the timers, the ticks in flight and the
    notifications are those it started from. *)
Theorem lock_failure_registers_nothing E file0 u s e s' :
  lock E file0 u s = (inl e, s') ->
  st_locks s' = st_locks s /\ st_objs s' = st_objs s /\
  st_timers s' = st_timers s /\ st_ticks s' = st_ticks s /\
  st_notes s' = st_notes s.
Proof.
  unfold lock. unfold mbind at 1, M_bind at 1.
  pose proof (proc_kept_canonicalPath E file0 (lock_options u) s) as H1.
  destruct (canonicalPath E file0 (lock_options u) s) as [[e1|file] s1]; cbn in H1.
  - unfold mret, M_ret. intros [= _ <-]. destruct H1 as (?&?&?&?&_&?). auto.
  - unfold mbind at 1, M_bind at 1.
    pose proof (proc_kept_acquireLock E file (lock_options u) s1) as H2.
    destruct (acquireLock E file (lock_options u) s1) as [[e2|uid] s2]; cbn in H2.
    + unfold mret, M_ret. intros [= _ <-].
      destruct H1 as (?&?&?&?&_&?), H2 as (?&?&?&?&_&?). repeat split; congruence.
    + unfold_M. cbn. destruct (updateLock E file (lock_options u) _). discriminate.
Qed.

(** A lock directory of another process, fresh at the time of the call. *)
Definition st_foreign : St := st_at {["/tmp/a.lock" := Dir 100000]} 100000.

Lemma lock_failure_registers_nothing_witness :
  lock env_plain "/tmp/a" (mkUserOpts None None None None) st_foreign
    = (inl ELOCKED, snd (lock env_plain "/tmp/a" (mkUserOpts None None None None) st_foreign)) /\
  let s' := snd (lock env_plain "/tmp/a" (mkUserOpts None None None None) st_foreign) in
  st_locks s' = st_locks st_foreign /\ st_objs s' = st_objs st_foreign /\
  st_timers s' = st_timers st_foreign /\ st_ticks s' = st_ticks st_foreign /\
  st_notes s' = st_notes st_foreign.
Proof.
  assert (H : lock env_plain "/tmp/a" (mkUserOpts None None None None) st_foreign
              = (inl ELOCKED, snd (lock env_plain "/tmp/a" (mkUserOpts None None None None) st_foreign)))
    by (vm_compute; reflexivity).
  split; [exact H|]. exact (lock_failure_registers_nothing _ _ _ _ _ _ H).
Defined.

(** ** Distinct files, distinct lock artifacts *)



